(** * Timing-recovery loop of [dsp_training/timing_recovery_demo.py]

    A shallow embedding of the closed-loop timing recovery (source lines
    66-115): the fractional-delay interpolator, the derivative estimator, the
    strobe counter, the timing-error detector and the loop filter.

    Arithmetic.  The source computes with IEEE floating point (Python floats
    and numpy complex64/complex128).  The loop is written once, over an
    interface [Arith] of the scalar operations it uses, and is instantiated
    twice:
    - at [R], the real numbers: rounding is idealised away and nothing
      overflows; [np.sinc], [np.tanh], [np.sqrt] and [np.hamming] are their
      documented mathematical definitions;
    - at [xreal], the reals extended with the IEEE special values: the two
      infinities and an absorbing NaN.  A store into a complex64 cell
      overflows to an infinity beyond the largest float32; rounding of finite
      results is still idealised away, and so is overflow of float64.
    Theorems about the order and the shape of the updates hold for every
    instance; theorems that need the laws of arithmetic are stated at [R];
    theorems about non-finite values are stated at [xreal]. *)

From Stdlib Require Import Reals Lra Lia ZArith List Bool Psatz.
Import ListNotations.

Set Implicit Arguments.

(** ** Scalars *)

Class Arith (T : Type) : Type := {
  flit  : R -> T;            (* a constant of the program *)
  fadd  : T -> T -> T;
  fsub  : T -> T -> T;
  fmul  : T -> T -> T;
  fdiv  : T -> T -> T;
  fneg  : T -> T;
  ftanh : T -> T;            (* np.tanh *)
  fsinc : T -> T;            (* np.sinc *)
  f32   : T -> T             (* the value a float32 cell keeps *)
}.

(** [np.sinc x] is [sin (pi x) / (pi x)], with value 1 at 0. *)
Definition sinc (x : R) : R :=
  if Req_dec_T x 0 then 1 else sin (PI * x) / (PI * x).

#[export] Instance Arith_R : Arith R := {|
  flit := fun x => x;
  fadd := Rplus;
  fsub := Rminus;
  fmul := Rmult;
  fdiv := Rdiv;
  fneg := Ropp;
  ftanh := tanh;
  fsinc := sinc;
  f32 := fun x => x
|}.

(** Reals with the IEEE special values.  NaN is absorbing; signed zeros are
    not distinguished. *)
Inductive xreal : Type :=
| Fin (r : R)
| PInf
| NInf
| NaN.

Definition xneg (a : xreal) : xreal :=
  match a with
  | Fin x => Fin (- x)
  | PInf => NInf
  | NInf => PInf
  | NaN => NaN
  end.

Definition xadd (a b : xreal) : xreal :=
  match a, b with
  | NaN, _ => NaN
  | _, NaN => NaN
  | Fin x, Fin y => Fin (x + y)
  | PInf, NInf => NaN
  | NInf, PInf => NaN
  | PInf, _ => PInf
  | _, PInf => PInf
  | NInf, _ => NInf
  | _, NInf => NInf
  end.

Definition xsub (a b : xreal) : xreal := xadd a (xneg b).

(* +inf times the finite [x]: NaN at 0, else the infinity of the sign *)
Definition xinf_sign (x : R) : xreal :=
  if Req_dec_T x 0 then NaN else if Rlt_dec 0 x then PInf else NInf.

Definition xmul (a b : xreal) : xreal :=
  match a, b with
  | NaN, _ => NaN
  | _, NaN => NaN
  | Fin x, Fin y => Fin (x * y)
  | PInf, Fin y => xinf_sign y
  | Fin x, PInf => xinf_sign x
  | NInf, Fin y => xinf_sign (- y)
  | Fin x, NInf => xinf_sign (- x)
  | PInf, PInf => PInf
  | NInf, NInf => PInf
  | PInf, NInf => NInf
  | NInf, PInf => NInf
  end.

(* The loop only divides by samples_per_symbol. *)
Definition xdiv (a b : xreal) : xreal :=
  match a, b with
  | NaN, _ => NaN
  | _, NaN => NaN
  | Fin x, Fin y => if Req_dec_T y 0 then xinf_sign x else Fin (x / y)
  | Fin _, _ => Fin 0
  | PInf, Fin y => if Rlt_dec y 0 then NInf else PInf
  | NInf, Fin y => if Rlt_dec y 0 then PInf else NInf
  | _, _ => NaN
  end.

Definition xtanh (a : xreal) : xreal :=
  match a with
  | Fin x => Fin (tanh x)
  | PInf => Fin 1
  | NInf => Fin (-1)
  | NaN => NaN
  end.

Definition xsinc (a : xreal) : xreal :=
  match a with
  | Fin x => Fin (sinc x)
  | _ => NaN
  end.

(** The largest float32, (2 - 2^-23) * 2^127, about 3.4e38. *)
Definition flt_max : R := (2 - / 2 ^ 23) * 2 ^ 127.

(** A float64 value stored into a float32 cell. *)
Definition xf32 (a : xreal) : xreal :=
  match a with
  | Fin x =>
      if Rlt_dec flt_max x then PInf
      else if Rlt_dec x (- flt_max) then NInf
      else Fin x
  | _ => a
  end.

#[export] Instance Arith_xreal : Arith xreal := {|
  flit := Fin;
  fadd := xadd;
  fsub := xsub;
  fmul := xmul;
  fdiv := xdiv;
  fneg := xneg;
  ftanh := xtanh;
  fsinc := xsinc;
  f32 := xf32
|}.

(** ** Complex samples *)

Record cplx (T : Type) : Type := Cplx { re : T; im : T }.

Section Loop.

Context {T : Type} {A : Arith T}.

Definition czero : cplx T := Cplx (flit 0) (flit 0).

(* a real scalar used where numpy expects a complex one *)
Definition of_real (x : T) : cplx T := Cplx x (flit 0).

(* the value a complex64 cell keeps of a complex128 one *)
Definition c64 (z : cplx T) : cplx T := Cplx (f32 (re z)) (f32 (im z)).

Definition cadd (a b : cplx T) : cplx T :=
  Cplx (fadd (re a) (re b)) (fadd (im a) (im b)).

Definition cmul (a b : cplx T) : cplx T :=
  Cplx (fsub (fmul (re a) (re b)) (fmul (im a) (im b)))
       (fadd (fmul (re a) (im b)) (fmul (im a) (re b))).

Definition cneg (a : cplx T) : cplx T := Cplx (fneg (re a)) (fneg (im a)).

Definition conj (a : cplx T) : cplx T := Cplx (re a) (fneg (im a)).

(** [np.dot] of a complex vector with a real one. *)
Fixpoint dot (u : list (cplx T)) (v : list T) : cplx T :=
  match u, v with
  | a :: u', h :: v' => cadd (cmul a (of_real h)) (dot u' v')
  | _, _ => czero
  end.

(** [b[:-1] = b[1:]; b[-1] = x] on a buffer of fixed length. *)
Definition push (b : list (cplx T)) (x : cplx T) : list (cplx T) :=
  match b with
  | [] => []
  | _ :: b' => b' ++ [x]
  end.

(** [a[i] = v]; Python raises IndexError when [i] is out of range, which the
    loop never reaches (see [pass_index_in_range]); the model leaves [a] as it
    is. *)
Fixpoint upd (i : nat) (v : cplx T) (a : list (cplx T)) : list (cplx T) :=
  match a, i with
  | [], _ => []
  | _ :: a', O => v :: a'
  | x :: a', S j => x :: upd j v a'
  end.

(** ** Configuration (source lines 21, 60, 69-73) *)

Record params : Type := Params {
  samples_per_symbol : Z;
  alpha : T;
  beta : T;
  th : list T;
  w : list T;
  sample_delay : Z
}.

(** ** Loop state (source lines 66-78)

    [buf], [mf_samples], [dtau_vect] and [tau_vect] are complex64 arrays;
    [tau] and [dtau] are float64 scalars. *)

Record state : Type := State {
  tau : T;
  dtau : T;
  buf : list (cplx T);
  counter : Z;
  mf_samples : list (cplx T);
  buf_dz : list (cplx T);
  dtau_vect : list (cplx T);
  tau_vect : list (cplx T)
}.

Definition init (p : params) (n : nat) : state :=
  {| tau := flit 0;
     dtau := flit 0;
     buf := repeat czero 5;
     counter := (sample_delay p + 1)%Z;
     mf_samples := repeat czero n;
     buf_dz := repeat czero 3;
     dtau_vect := repeat czero n;
     tau_vect := repeat czero n |}.

(** ** One pass of the loop body (source lines 81-115) *)

(** line 86: [hi = np.sinc(th - tau) * w] *)
Fixpoint kernel_of (ths ws : list T) (t : T) : list T :=
  match ths, ws with
  | x :: ths', wk :: ws' => fmul (fsinc (fsub x t)) wk :: kernel_of ths' ws' t
  | _, _ => []
  end.

Definition kernel (p : params) (t : T) : list T := kernel_of (th p) (w p) t.

(** line 87: [np.dot(buf, np.flip(hi))] *)
Definition interpolate (p : params) (t : T) (b : list (cplx T)) : cplx T :=
  dot b (rev (kernel p t)).

(** line 92: [dz = -np.dot(buf_dz, np.array([-1, 0, 1]))] *)
Definition derivative (bdz : list (cplx T)) : cplx T :=
  cneg (dot bdz [flit (-1); flit 0; flit 1]).

(** line 101: [np.tanh((dz * np.conj(mf_samples[i-1])).real)] *)
Definition ted (dz prev : cplx T) : T := ftanh (re (cmul dz (conj prev))).

(** lines 95-96: the counter is advanced, then tested. *)
Definition strobe (p : params) (s : state) : bool :=
  (samples_per_symbol p <=? counter s + 1)%Z.

(** lines 104-108, on the pair (tau, dtau). *)
Definition strobe_branch (p : params) (err : T) (td : T * T) : T * T :=
  let t1 := fadd (fst td) (fmul (alpha p) err) in
  let d1 := fadd (snd td) (fmul (alpha p) err) in
  let t2 := fadd t1 (fmul (beta p) err) in
  (t2, d1).

(** line 111 *)
Definition drift (p : params) (td : T * T) : T * T :=
  (fadd (fst td) (fdiv (snd td) (flit (IZR (samples_per_symbol p)))), snd td).

(** The loop filter of one pass: the strobe branch when the detector produced
    an error value, then the drift of line 111 in every pass. *)
Definition loop_filter (p : params) (o : option T) (td : T * T) : T * T :=
  drift p match o with
          | Some err => strobe_branch p err td
          | None => td
          end.

(** The timing-error value computed in pass [i], if the pass is a strobe. *)
Definition ted_output (p : params) (s : state) (i : nat)
    (mf1 bdz1 : list (cplx T)) : option T :=
  if strobe p s
  then Some (ted (derivative bdz1) (nth (i - 1) mf1 czero))
  else None.

Definition cycle (p : params) (input : list (cplx T)) (i : nat) (s : state)
    : state :=
  let buf1 := push (buf s) (c64 (nth i input czero)) in
  let mf1 := upd i (c64 (interpolate p (tau s) buf1)) (mf_samples s) in
  let bdz1 := push (buf_dz s) (nth i mf1 czero) in
  let counter1 := (counter s + 1)%Z in
  let counter2 :=
    if strobe p s then (counter1 - samples_per_symbol p)%Z else counter1 in
  let td2 := loop_filter p (ted_output p s i mf1 bdz1) (tau s, dtau s) in
  {| tau := fst td2;
     dtau := snd td2;
     buf := buf1;
     counter := counter2;
     mf_samples := mf1;
     buf_dz := bdz1;
     dtau_vect := upd i (c64 (of_real (snd td2))) (dtau_vect s);
     tau_vect := upd i (c64 (of_real (fst td2))) (tau_vect s) |}.

(** line 80: [for i in range(1, len(mf_samples_with_offset))] *)
Definition passes (input : list (cplx T)) : list nat :=
  seq 1 (length input - 1).

Definition run_from (p : params) (input : list (cplx T)) (idx : list nat)
    (s : state) : state :=
  fold_left (fun st i => cycle p input i st) idx s.

Definition run (p : params) (input : list (cplx T)) : state :=
  run_from p input (passes input) (init p (length input)).

(** The number of passes of [idx] on which the branch of line 96 is taken. *)
Fixpoint strobe_count (p : params) (input : list (cplx T)) (idx : list nat)
    (s : state) : Z :=
  match idx with
  | [] => 0%Z
  | i :: idx' =>
      ((if strobe p s then 1 else 0)
       + strobe_count p input idx' (cycle p input i s))%Z
  end.

Definition emitted (p : params) (input : list (cplx T)) : Z :=
  strobe_count p input (passes input) (init p (length input)).

(** A sequence of passes of the loop filter alone; [true] marks a strobe, and
    the detector's error is held at [e] on every strobe. *)
Definition held (e : T) (strobes : list bool) : list (option T) :=
  map (fun b : bool => if b then Some e else None) strobes.

Definition filter_run (p : params) (os : list (option T)) (td : T * T)
    : T * T :=
  fold_left (fun acc o => loop_filter p o acc) os td.

(** The strobe-time update as the specification words it (section 4.5):
    [dtau += alpha * error], then [tau += beta * error], nothing else. *)
Definition spec_strobe_update (p : params) (err : T) (td : T * T) : T * T :=
  let d1 := fadd (snd td) (fmul (alpha p) err) in
  let t1 := fadd (fst td) (fmul (beta p) err) in
  (t1, d1).

End Loop.

Arguments params T : clear implicits.
Arguments state T : clear implicits.

(** ** The configuration of the script *)

Local Open Scope R_scope.

(** [np.hamming(M)]: [0.54 - 0.46 cos(2 pi n / (M - 1))] for [n < M]. *)
Definition hamming (M : nat) : list R :=
  map (fun n => 0.54 - 0.46 * cos (2 * PI * INR n / INR (M - 1))) (seq 0 M).

(** lines 21, 60 and 69-73: [sample_delay = int((len(th) - 1) / 2)]. *)
Definition demo {T : Type} {A : Arith T} : params T :=
  {| samples_per_symbol := 4%Z;
     alpha := flit 0.005;
     beta := flit (2 * sqrt 0.005);
     th := map flit [-2; -1; 0; 1; 2];
     w := map flit (map sqrt (hamming 5));
     sample_delay := Z.of_nat ((5 - 1) / 2)%nat |}.

(** The kernel as the specification words it (section 4.1): a sinc at the
    offsets -2..2 shifted by -tau, under the Hamming window itself. *)
Definition spec_kernel (t : R) : list R :=
  kernel_of [-2; -1; 0; 1; 2] (hamming 5) t.

(** Sample values used in the examples below. *)
Definition c0 : cplx R := Cplx 0 0.
Definition c1 : cplx R := Cplx 1 0.
Definition cnan : cplx xreal := Cplx NaN (Fin 0).

Definition input7 : list (cplx R) := [c0; c1; c1; c0; c0; c0; c0].
Definition input_nan : list (cplx xreal) := [czero; cnan; czero; czero].
Definition input_nan6 : list (cplx xreal) :=
  [czero; cnan; czero; czero; czero; czero].

(** A finite sample beyond the range of float32. *)
Definition big : R := 10 ^ 39.
Definition input_big : list (cplx xreal) := [czero; Cplx (Fin big) (Fin 0)].

(** A complex value with a NaN part. *)
Definition has_nan (z : cplx xreal) : Prop := re z = NaN \/ im z = NaN.

(** The strobes among [n] passes, as a function of the counter alone. *)
Fixpoint count_strobes (sps c : Z) (n : nat) : Z :=
  match n with
  | O => 0%Z
  | S k =>
      if (sps <=? c + 1)%Z
      then (1 + count_strobes sps (c + 1 - sps) k)%Z
      else count_strobes sps (c + 1) k
  end.

(** The states of the run on [input7], pass by pass: tau and dtau stay 0
    until the strobe of pass 5, where the detector yields [tanh 1]. *)
Definition dtau5 : R := 0.005 * tanh 1.
Definition tau5 : R := 0.005 * tanh 1 + 2 * sqrt 0.005 * tanh 1 + dtau5 / 4.

Definition st0 : state R :=
  State 0 0 [c0; c0; c0; c0; c0] 3 [c0; c0; c0; c0; c0; c0; c0] [c0; c0; c0]
    [c0; c0; c0; c0; c0; c0; c0] [c0; c0; c0; c0; c0; c0; c0].
Definition st1 : state R :=
  State 0 0 [c0; c0; c0; c0; c1] 0 [c0; c0; c0; c0; c0; c0; c0] [c0; c0; c0]
    [c0; c0; c0; c0; c0; c0; c0] [c0; c0; c0; c0; c0; c0; c0].
Definition st2 : state R :=
  State 0 0 [c0; c0; c0; c1; c1] 1 [c0; c0; c0; c0; c0; c0; c0] [c0; c0; c0]
    [c0; c0; c0; c0; c0; c0; c0] [c0; c0; c0; c0; c0; c0; c0].
Definition st3 : state R :=
  State 0 0 [c0; c0; c1; c1; c0] 2 [c0; c0; c0; c1; c0; c0; c0] [c0; c0; c1]
    [c0; c0; c0; c0; c0; c0; c0] [c0; c0; c0; c0; c0; c0; c0].
Definition st4 : state R :=
  State 0 0 [c0; c1; c1; c0; c0] 3 [c0; c0; c0; c1; c1; c0; c0] [c0; c1; c1]
    [c0; c0; c0; c0; c0; c0; c0] [c0; c0; c0; c0; c0; c0; c0].
Definition st5 : state R :=
  State tau5 dtau5 [c1; c1; c0; c0; c0] 0 [c0; c0; c0; c1; c1; c0; c0]
    [c1; c1; c0]
    [c0; c0; c0; c0; c0; Cplx dtau5 0; c0]
    [c0; c0; c0; c0; c0; Cplx tau5 0; c0].

(** ** Observing a run *)

(** The state after the passes 1 .. i of the loop on [input]. *)
Definition state_after {T : Type} {A : Arith T} (p : params T)
    (input : list (cplx T)) (i : nat) : state T :=
  run_from p input (seq 1 i) (init p (length input)).

(** What the raw buffer holds for sample [i - d] in pass [i]: the stored
    sample when its index is at least 1, and the zero of the initial buffer
    otherwise. *)
Definition delayed {T : Type} {A : Arith T} (input : list (cplx T))
    (i d : nat) : cplx T :=
  if (d <? i)%nat then c64 (nth (i - d) input czero) else czero.

(** The indices of the Python slice [a[start::step]] of an array of length
    [len], for [step > 0]. *)
Definition slice_indices (start step len : nat) : list nat :=
  map (fun k => (start + k * step)%nat)
      (seq 0 ((len - start + step - 1) / step)).

(** lines 20 and 141:
    [second_half = int(num_symbols/2.) * samples_per_symbol] *)
Definition num_symbols : nat := 500.
Definition second_half : nat :=
  (num_symbols / 2 * Z.to_nat (samples_per_symbol (@demo R _)))%nat.

(** lines 51-56: the filter that puts the timing offset on the transmitted
    samples, [hi = np.sinc(th + tau) * w; hi /= np.sum(hi)]. *)
Definition dt : R := 0.5.

Fixpoint tx_kernel_of (ths ws : list R) (t : R) : list R :=
  match ths, ws with
  | x :: ths', wk :: ws' => sinc (x + t) * wk :: tx_kernel_of ths' ws' t
  | _, _ => []
  end.

Definition tx_kernel (t : R) : list R :=
  tx_kernel_of [-2; -1; 0; 1; 2] (map sqrt (hamming 5)) t.

Definition np_sum (l : list R) : R := fold_right Rplus 0 l.

Definition tx_taps (t : R) : list R :=
  let hi := tx_kernel t in
  map (fun h => h / np_sum hi) hi.

(** ** List and buffer facts *)

Section Buffers.

Context {T : Type} {A : Arith T}.

Lemma length_upd (i : nat) (v : cplx T) (a : list (cplx T)) :
  length (upd i v a) = length a.
Proof.
  revert i; induction a as [|x a IH]; intros [|i]; simpl; auto.
Qed.

Lemma nth_upd_eq (i : nat) (v d : cplx T) (a : list (cplx T)) :
  (i < length a)%nat -> nth i (upd i v a) d = v.
Proof.
  revert i; induction a as [|x a IH]; intros [|i] H; simpl in *;
    try lia; auto.
  apply IH; lia.
Qed.

Lemma nth_upd_neq (i j : nat) (v d : cplx T) (a : list (cplx T)) :
  i <> j -> nth j (upd i v a) d = nth j a d.
Proof.
  revert i j; induction a as [|x a IH]; intros [|i] [|j] H; simpl;
    try congruence; auto.
Qed.

Lemma nth_error_upd_neq (i j : nat) (v : cplx T) (a : list (cplx T)) :
  i <> j -> nth_error (upd i v a) j = nth_error a j.
Proof.
  revert i j; induction a as [|x a IH]; intros [|i] [|j] H; simpl;
    try congruence; auto.
Qed.

Lemma length_push (b : list (cplx T)) (x : cplx T) :
  length (push b x) = length b.
Proof.
  destruct b as [|y b]; simpl; auto.
  rewrite length_app; simpl; lia.
Qed.

End Buffers.

(** ** Structure of one pass, for every arithmetic *)

Section Structure.

Context {T : Type} {A : Arith T}.
Variable p : params T.

Lemma run_from_app (input : list (cplx T)) (idx1 idx2 : list nat)
    (s : state T) :
  run_from p input (idx1 ++ idx2) s
  = run_from p input idx2 (run_from p input idx1 s).
Proof. unfold run_from; apply fold_left_app. Qed.

Lemma cycle_lengths (input : list (cplx T)) (i : nat) (s : state T) :
  let s' := cycle p input i s in
  length (mf_samples s') = length (mf_samples s)
  /\ length (tau_vect s') = length (tau_vect s)
  /\ length (dtau_vect s') = length (dtau_vect s)
  /\ length (buf s') = length (buf s)
  /\ length (buf_dz s') = length (buf_dz s).
Proof.
  simpl; rewrite !length_upd, !length_push; auto.
Qed.

(** The arrays keep the length of the input and the buffers their 5 and 3
    cells, so every index the loop writes or reads is in range. *)
Lemma run_lengths (input : list (cplx T)) (idx : list nat) (s : state T) :
  let s' := run_from p input idx s in
  length (mf_samples s') = length (mf_samples s)
  /\ length (tau_vect s') = length (tau_vect s)
  /\ length (dtau_vect s') = length (dtau_vect s)
  /\ length (buf s') = length (buf s)
  /\ length (buf_dz s') = length (buf_dz s).
Proof.
  revert s; induction idx as [|i idx IH]; intros s; simpl; auto.
  destruct (IH (cycle p input i s)) as (H1 & H2 & H3 & H4 & H5).
  destruct (cycle_lengths input i s) as (G1 & G2 & G3 & G4 & G5).
  simpl in *; repeat split; congruence.
Qed.

(** Every state of a run from [init p n] has arrays of length [n], a raw
    buffer of 5 cells and a derivative buffer of 3. *)
Lemma reachable_shape (input : list (cplx T)) (idx : list nat) (n : nat) :
  let s := run_from p input idx (init p n) in
  length (mf_samples s) = n
  /\ length (tau_vect s) = n
  /\ length (dtau_vect s) = n
  /\ length (buf s) = 5%nat
  /\ length (buf_dz s) = 3%nat.
Proof.
  destruct (run_lengths input idx (init p n)) as (H1 & H2 & H3 & H4 & H5).
  cbn [init mf_samples tau_vect dtau_vect buf buf_dz] in *.
  rewrite !repeat_length in *; auto.
Qed.

(** The index of every pass of a run is within the arrays. *)
Lemma pass_index_in_range (input : list (cplx T)) (idx : list nat) (i : nat) :
  In i (passes input) ->
  (i < length (mf_samples (run_from p input idx (init p (length input)))))%nat.
Proof.
  unfold passes; rewrite in_seq; intros Hi.
  destruct (reachable_shape input idx (length input)) as (H1 & _).
  rewrite H1; lia.
Qed.

(** C1, as amended: on a strobe pass the strobe-time update is, in this
    order, tau += alpha*err, dtau += alpha*err, tau += beta*err, all three
    with the one error value the detector produced in this pass, and nothing
    else changes tau or dtau before the drift term. *)
Theorem C1_strobe_update_order (input : list (cplx T)) (i : nat)
    (s : state T) :
  strobe p s = true ->
  let s' := cycle p input i s in
  exists err : T,
    ted_output p s i (mf_samples s') (buf_dz s') = Some err
    /\ let t1 := fadd (tau s) (fmul (alpha p) err) in
       let d1 := fadd (dtau s) (fmul (alpha p) err) in
       let t2 := fadd t1 (fmul (beta p) err) in
       strobe_branch p err (tau s, dtau s) = (t2, d1)
       /\ (tau s', dtau s') = drift p (t2, d1).
Proof.
  intros Hs; simpl.
  unfold ted_output; rewrite Hs.
  eexists; split; [reflexivity|].
  split; reflexivity.
Qed.

(** C2: in every pass, after the strobe-time updates (if any), tau grows by
    dtau / samples_per_symbol; on a pass that is not a strobe this is the
    only change of tau, and dtau is unchanged. *)
Theorem C2_drift_every_pass (input : list (cplx T)) (i : nat) (s : state T) :
  let s' := cycle p input i s in
  let sps := flit (IZR (samples_per_symbol p)) in
  let td :=
    match ted_output p s i (mf_samples s') (buf_dz s') with
    | Some err => strobe_branch p err (tau s, dtau s)
    | None => (tau s, dtau s)
    end in
  tau s' = fadd (fst td) (fdiv (snd td) sps)
  /\ dtau s' = snd td
  /\ (strobe p s = false ->
      tau s' = fadd (tau s) (fdiv (dtau s) sps) /\ dtau s' = dtau s).
Proof.
  simpl; split; [reflexivity | split; [reflexivity | intros Hs]].
  unfold ted_output; rewrite Hs; split; reflexivity.
Qed.

(** C6: the counter is advanced by one and then tested; the pass is a strobe
    exactly when the advanced counter has reached samples_per_symbol, the
    counter is then reduced by samples_per_symbol once, and the detector and
    the strobe branch of the loop filter are applied once. *)
Theorem C6_strobe_counter (input : list (cplx T)) (i : nat) (s : state T) :
  let c1 := (counter s + 1)%Z in
  let s' := cycle p input i s in
  let err := ted (derivative (buf_dz s')) (nth (i - 1) (mf_samples s') czero) in
  (strobe p s = true <-> (c1 >= samples_per_symbol p)%Z)
  /\ counter s' = (if strobe p s then c1 - samples_per_symbol p else c1)%Z
  /\ ted_output p s i (mf_samples s') (buf_dz s')
     = (if strobe p s then Some err else None)
  /\ (tau s', dtau s')
     = drift p (if strobe p s
                then strobe_branch p err (tau s, dtau s)
                else (tau s, dtau s)).
Proof.
  intros c1 s' err; subst c1 s' err; repeat split.
  - unfold strobe; intros H; apply Z.leb_le in H; lia.
  - unfold strobe; intros H; apply Z.leb_le; lia.
  - simpl; unfold loop_filter, ted_output; destruct (strobe p s); reflexivity.
Qed.

End Structure.

(** ** The passes of a run *)

Section Passes.

Context {T : Type} {A : Arith T}.
Variable p : params T.

Lemma strobe_count_counter (input : list (cplx T)) (idx : list nat)
    (s : state T) :
  strobe_count p input idx s
  = count_strobes (samples_per_symbol p) (counter s) (length idx).
Proof.
  revert s; induction idx as [|i idx IH]; intros s;
    cbn [strobe_count length count_strobes]; [reflexivity|].
  rewrite IH; cbn [cycle counter]; unfold strobe.
  destruct (samples_per_symbol p <=? counter s + 1)%Z; lia.
Qed.

Lemma count_strobes_closed (sps c : Z) (n : nat) :
  (1 <= sps)%Z -> (0 <= c)%Z ->
  count_strobes sps c n = Z.min (Z.of_nat n) ((c + Z.of_nat n) / sps).
Proof.
  intros Hs; revert c; induction n as [|n IH]; intros c Hc.
  - simpl; rewrite Z.add_0_r.
    pose proof (Z.div_pos c sps Hc ltac:(lia)); lia.
  - cbn [count_strobes].
    replace (c + Z.of_nat (S n))%Z with (c + 1 + Z.of_nat n)%Z by lia.
    destruct (Z.leb_spec sps (c + 1)) as [Hle|Hlt].
    + rewrite IH by lia.
      replace (c + 1 - sps + Z.of_nat n)%Z
        with (c + 1 + Z.of_nat n + (-1) * sps)%Z by lia.
      rewrite Z.div_add by lia.
      lia.
    + rewrite IH by lia.
      set (q := ((c + 1 + Z.of_nat n) / sps)%Z).
      assert (Hq : (sps * q <= c + 1 + Z.of_nat n)%Z)
        by (apply Z.mul_div_le; lia).
      assert (q <= Z.of_nat n)%Z by nia.
      lia.
Qed.

(** C7: with the counter started at sample_delay + 1 = 3, the number of
    strobe passes over an input of length L differs from floor(L / R) by at
    most one, for every ratio R >= 1; it is min(L - 1, floor((L + 2) / R))
    for a non-empty input. *)
Theorem C7_strobe_count (input : list (cplx T)) :
  (1 <= samples_per_symbol p)%Z ->
  sample_delay p = 2%Z ->
  let L := Z.of_nat (length input) in
  let R := samples_per_symbol p in
  (Z.abs (emitted p input - L / R) <= 1)%Z
  /\ emitted p input
     = Z.min (Z.of_nat (length input - 1))
             ((3 + Z.of_nat (length input - 1)) / R).
Proof.
  intros HR Hd L R.
  unfold emitted; rewrite strobe_count_counter.
  unfold passes; rewrite length_seq; cbn [init counter]; rewrite Hd.
  rewrite count_strobes_closed by (fold R; lia).
  fold R; split; [|reflexivity].
  destruct (length input) as [|n] eqn:E.
  - subst L; simpl. rewrite Z.div_0_l by lia.
    assert (0 <= 3 / R)%Z by (apply Z.div_pos; lia); lia.
  - replace (S n - 1)%nat with n by lia.
    assert (HL : L = (Z.of_nat n + 1)%Z) by (subst L; lia).
    rewrite HL; set (m := Z.of_nat n); assert (0 <= m)%Z by lia.
    set (q1 := ((2 + 1 + m) / R)%Z); set (q2 := ((m + 1) / R)%Z).
    assert (H1 : (R * q1 <= 2 + 1 + m)%Z) by (apply Z.mul_div_le; lia).
    assert (H2 : (2 + 1 + m < R * (q1 + 1))%Z).
    { pose proof (Z.mul_succ_div_gt (2 + 1 + m) R ltac:(lia)); fold q1 in H0.
      lia. }
    assert (H3 : (R * q2 <= m + 1)%Z) by (apply Z.mul_div_le; lia).
    assert (H4 : (m + 1 < R * (q2 + 1))%Z).
    { pose proof (Z.mul_succ_div_gt (m + 1) R ltac:(lia)); fold q2 in H0.
      lia. }
    assert (0 <= q2)%Z by (apply Z.div_pos; lia).
    assert (q2 <= q1)%Z by nia.
    assert (q2 <= m + 1)%Z by nia.
    assert (R = 1 \/ R = 2 \/ 3 <= R)%Z as [HR1|[HR2|HR3]] by lia.
    + assert (q1 = m + 3)%Z by nia. lia.
    + assert (q1 <= q2 + 1)%Z by nia. lia.
    + assert (q1 <= q2 + 1)%Z by nia. lia.
Qed.

Lemma cycle_skip_head (x0 y0 : cplx T) (rest : list (cplx T)) (i : nat)
    (s : state T) :
  cycle p (x0 :: rest) (S i) s = cycle p (y0 :: rest) (S i) s.
Proof. reflexivity. Qed.

Lemma run_from_skip_head (x0 y0 : cplx T) (rest : list (cplx T)) (n k : nat)
    (s : state T) :
  run_from p (x0 :: rest) (seq (S k) n) s
  = run_from p (y0 :: rest) (seq (S k) n) s.
Proof.
  revert k s; induction n as [|n IH]; intros k s; simpl; [reflexivity|].
  apply IH.
Qed.

Lemma cycle_index0 (input : list (cplx T)) (i : nat) (s : state T) :
  let s' := cycle p input (S i) s in
  nth_error (mf_samples s') 0 = nth_error (mf_samples s) 0
  /\ nth_error (tau_vect s') 0 = nth_error (tau_vect s) 0
  /\ nth_error (dtau_vect s') 0 = nth_error (dtau_vect s) 0.
Proof.
  cbn [cycle mf_samples tau_vect dtau_vect].
  rewrite !nth_error_upd_neq by lia; auto.
Qed.

Lemma run_from_index0 (input : list (cplx T)) (n k : nat) (s : state T) :
  let s' := run_from p input (seq (S k) n) s in
  nth_error (mf_samples s') 0 = nth_error (mf_samples s) 0
  /\ nth_error (tau_vect s') 0 = nth_error (tau_vect s) 0
  /\ nth_error (dtau_vect s') 0 = nth_error (dtau_vect s) 0.
Proof.
  revert k s; induction n as [|n IH]; intros k s; simpl; auto.
  destruct (IH (S k) (cycle p input (S k) s)) as (H1 & H2 & H3).
  destruct (cycle_index0 input k s) as (G1 & G2 & G3).
  simpl in *; repeat split; congruence.
Qed.

End Passes.

(** ** Facts of real arithmetic used by the loop *)

Section RealFacts.

Lemma tanh_bounds (x : R) : -1 < tanh x < 1.
Proof.
  unfold tanh, sinh, cosh.
  pose proof (exp_pos x) as Ha; pose proof (exp_pos (- x)) as Hb.
  set (a := exp x) in *; set (b := exp (- x)) in *.
  assert (Hy : 0 < (a + b) / 2) by lra.
  split.
  - apply Rmult_lt_reg_r with ((a + b) / 2); [exact Hy|].
    replace ((a - b) / 2 / ((a + b) / 2) * ((a + b) / 2)) with ((a - b) / 2)
      by (field; lra).
    lra.
  - apply Rmult_lt_reg_r with ((a + b) / 2); [exact Hy|].
    replace ((a - b) / 2 / ((a + b) / 2) * ((a + b) / 2)) with ((a - b) / 2)
      by (field; lra).
    lra.
Qed.

Lemma tanh_0 : tanh 0 = 0.
Proof. unfold tanh; rewrite sinh_0; unfold Rdiv; ring. Qed.

Lemma tanh_pos (x : R) : 0 < x -> 0 < tanh x.
Proof.
  intros Hx; unfold tanh, sinh, cosh.
  pose proof (exp_pos (- x)) as Hb.
  assert (Hlt : exp (- x) < exp x) by (apply exp_increasing; lra).
  apply Rdiv_lt_0_compat; lra.
Qed.

Lemma sinc_0 : sinc 0 = 1.
Proof. unfold sinc; destruct (Req_dec_T 0 0); [reflexivity | lra]. Qed.

Lemma sinc_int (k : Z) : k <> 0%Z -> sinc (IZR k) = 0.
Proof.
  intros Hk; unfold sinc.
  destruct (Req_dec_T (IZR k) 0) as [E|_].
  - apply eq_IZR_R0 in E; contradiction.
  - rewrite (sin_eq_0_1 (PI * IZR k)) by (exists k; ring).
    unfold Rdiv; ring.
Qed.

Lemma hamming_5 : hamming 5 = [0.08; 0.54; 1; 0.54; 0.08].
Proof.
  unfold hamming; cbn [seq map Nat.sub INR].
  replace (2 * PI * 0 / (1 + 1 + 1 + 1)) with 0 by (field; lra).
  replace (2 * PI * 1 / (1 + 1 + 1 + 1)) with (PI / 2) by (field; lra).
  replace (2 * PI * (1 + 1) / (1 + 1 + 1 + 1)) with PI by (field; lra).
  replace (2 * PI * (1 + 1 + 1) / (1 + 1 + 1 + 1)) with (3 * (PI / 2))
    by (field; lra).
  replace (2 * PI * (1 + 1 + 1 + 1) / (1 + 1 + 1 + 1)) with (2 * PI)
    by (field; lra).
  rewrite cos_0, cos_PI2, cos_PI, cos_3PI2, cos_2PI.
  repeat (f_equal; try lra).
Qed.

Lemma sqrt_054_lt_1 : sqrt 0.54 < 1.
Proof.
  rewrite <- sqrt_1; apply sqrt_lt_1; lra.
Qed.

Lemma sqrt_054_neq : sqrt 0.54 <> 0.54.
Proof.
  intros E.
  pose proof (sqrt_sqrt 0.54 ltac:(lra)) as H.
  rewrite E in H; lra.
Qed.

Lemma sqrt_0005_bounds : 0 < sqrt 0.005 < 0.1.
Proof.
  split; [apply sqrt_lt_R0; lra|].
  replace 0.1 with (sqrt 0.01).
  - apply sqrt_lt_1; lra.
  - replace 0.01 with (0.1 * 0.1) by lra; apply sqrt_square; lra.
Qed.

End RealFacts.

(** ** The loop over the reals *)

Section RealLoop.

(** Over the reals a store into a complex64 cell keeps the value. *)
Lemma c64_R (z : cplx R) : c64 z = z.
Proof. destruct z; reflexivity. Qed.

Lemma kernel_demo (t : R) :
  kernel demo t
  = [sinc (-2 - t) * sqrt 0.08; sinc (-1 - t) * sqrt 0.54;
     sinc (0 - t) * sqrt 1; sinc (1 - t) * sqrt 0.54;
     sinc (2 - t) * sqrt 0.08].
Proof.
  unfold kernel, demo; cbn [th w]; rewrite hamming_5; reflexivity.
Qed.

Lemma spec_kernel_values (t : R) :
  spec_kernel t
  = [sinc (-2 - t) * 0.08; sinc (-1 - t) * 0.54; sinc (0 - t) * 1;
     sinc (1 - t) * 0.54; sinc (2 - t) * 0.08].
Proof. unfold spec_kernel; rewrite hamming_5; reflexivity. Qed.

(** With tau = 0 the kernel is the unit pulse at the centre tap. *)
Lemma kernel_demo_0 : kernel demo 0 = [0; 0; 1; 0; 0].
Proof.
  rewrite kernel_demo.
  replace (-2 - 0) with (IZR (-2)) by lra.
  replace (-1 - 0) with (IZR (-1)) by lra.
  replace (0 - 0) with 0 by lra.
  replace (1 - 0) with (IZR 1) by lra.
  replace (2 - 0) with (IZR 2) by lra.
  rewrite (@sinc_int (-2)%Z), (@sinc_int (-1)%Z) by lia.
  rewrite (@sinc_int 1%Z), (@sinc_int 2%Z) by lia.
  rewrite sinc_0, sqrt_1.
  repeat (f_equal; try lra).
Qed.

Lemma dot5 (a0 a1 a2 a3 a4 : cplx R) (h0 h1 h2 h3 h4 : R) :
  dot [a0; a1; a2; a3; a4] [h0; h1; h2; h3; h4]
  = Cplx (re a0 * h0 + re a1 * h1 + re a2 * h2 + re a3 * h3 + re a4 * h4)
         (im a0 * h0 + im a1 * h1 + im a2 * h2 + im a3 * h3 + im a4 * h4).
Proof.
  unfold dot, cadd, cmul, of_real, czero;
    cbn [re im fadd fsub fmul flit Arith_R].
  f_equal; ring.
Qed.

(** Section 4.2: the derivative is [buf_dz[0] - buf_dz[2]]. *)
Lemma derivative_R (b0 b1 b2 : cplx R) :
  derivative [b0; b1; b2] = Cplx (re b0 - re b2) (im b0 - im b2).
Proof.
  unfold derivative, dot, cneg, cadd, cmul, of_real, czero;
    cbn [re im fadd fsub fmul fneg flit Arith_R].
  f_equal; ring.
Qed.

Lemma interpolate_demo_0 (a0 a1 a2 a3 a4 : cplx R) :
  interpolate demo 0 [a0; a1; a2; a3; a4] = Cplx (re a2) (im a2).
Proof.
  unfold interpolate; rewrite kernel_demo_0; cbn [rev app].
  rewrite dot5; f_equal; ring.
Qed.

(** Over the reals the detector's value lies in [-1, 1]. *)
Lemma ted_bounded_R (dz prev : cplx R) : -1 <= ted dz prev <= 1.
Proof.
  unfold ted; cbn [ftanh Arith_R].
  pose proof (tanh_bounds (re (cmul dz (conj prev)))); lra.
Qed.

(** C5, as amended: the kernel of every pass is the sinc at the offsets
    -2..2 shifted by -tau under the square root of the 5-point Hamming window
    (0.08, 0.54, 1, 0.54, 0.08); the raw buffer takes the new sample at its
    end and the output is its inner product with the reversed kernel.  The
    taps are used as computed, not rescaled to unit sum: at tau = 1 they sum
    to sqrt 0.54. *)
Theorem C5_interpolator_kernel (input : list (cplx R)) (i : nat)
    (s : state R) (a0 a1 a2 a3 a4 : cplx R) :
  (i < length (mf_samples s))%nat ->
  buf s = [a0; a1; a2; a3; a4] ->
  let t := tau s in
  let s' := cycle demo input i s in
  let x := nth i input czero in
  let h0 := sinc (-2 - t) * sqrt 0.08 in
  let h1 := sinc (-1 - t) * sqrt 0.54 in
  let h2 := sinc (0 - t) * sqrt 1 in
  let h3 := sinc (1 - t) * sqrt 0.54 in
  let h4 := sinc (2 - t) * sqrt 0.08 in
  kernel demo t = [h0; h1; h2; h3; h4]
  /\ buf s' = [a1; a2; a3; a4; x]
  /\ nth i (mf_samples s') czero
     = Cplx (re a1 * h4 + re a2 * h3 + re a3 * h2 + re a4 * h1 + re x * h0)
            (im a1 * h4 + im a2 * h3 + im a3 * h2 + im a4 * h1 + im x * h0)
  /\ fold_right Rplus 0 (kernel demo 1) = sqrt 0.54.
Proof.
  intros Hi Hb t s' x h0 h1 h2 h3 h4.
  assert (Hk : kernel demo t = [h0; h1; h2; h3; h4]) by apply kernel_demo.
  assert (Hb' : buf s' = [a1; a2; a3; a4; x]).
  { subst s'; cbn [cycle buf]; rewrite Hb, c64_R; reflexivity. }
  split; [exact Hk|]. split; [exact Hb'|]. split.
  - subst s'; cbn [cycle mf_samples].
    rewrite nth_upd_eq by exact Hi.
    rewrite Hb, !c64_R; cbn [push app]; fold x.
    unfold interpolate; fold t; rewrite Hk; cbn [rev app].
    apply dot5.
  - rewrite kernel_demo.
    replace (-2 - 1) with (IZR (-3)) by lra.
    replace (-1 - 1) with (IZR (-2)) by lra.
    replace (0 - 1) with (IZR (-1)) by lra.
    replace (1 - 1) with 0 by lra.
    replace (2 - 1) with (IZR 1) by lra.
    rewrite (@sinc_int (-3)%Z), (@sinc_int (-2)%Z) by lia.
    rewrite (@sinc_int (-1)%Z), (@sinc_int 1%Z) by lia.
    rewrite sinc_0; cbn [fold_right]; ring.
Qed.

Lemma filter_run_dtau (p : params R) (e : R) (bs : list bool) (t0 d0 : R) :
  snd (filter_run p (held e bs) (t0, d0))
  = d0 + INR (count_occ bool_dec bs true) * alpha p * e.
Proof.
  revert t0 d0; induction bs as [|b bs IH]; intros t0 d0.
  - cbn; ring.
  - unfold filter_run, held in *; cbn [map fold_left].
    destruct b.
    + unfold loop_filter at 2, drift, strobe_branch.
      cbn [fst snd fadd fmul fdiv flit Arith_R].
      rewrite IH, count_occ_cons_eq by reflexivity.
      rewrite S_INR; ring.
    + unfold loop_filter at 2, drift.
      cbn [fst snd fadd fmul fdiv flit Arith_R].
      rewrite IH, count_occ_cons_neq by discriminate.
      ring.
Qed.

(** C8: with the error held at e, the rate estimate after n strobes is
    dtau_0 + n * alpha * e, whatever tau_0 and dtau_0, whether the strobes are
    consecutive passes or have passes without strobe between them; the
    interpolator plays no part. *)
Theorem C8_loop_filter_linearity (p : params R) (e t0 d0 : R) (n : nat)
    (bs : list bool) :
  snd (filter_run p (held e (repeat true n)) (t0, d0))
  = d0 + INR n * alpha p * e
  /\ snd (filter_run p (held e bs) (t0, d0))
     = d0 + INR (count_occ bool_dec bs true) * alpha p * e.
Proof.
  split; [|apply filter_run_dtau].
  assert (Hn : count_occ bool_dec (repeat true n) true = n).
  { induction n as [|n IH]; [reflexivity|].
    cbn [repeat]; rewrite count_occ_cons_eq by reflexivity.
    rewrite IH; reflexivity. }
  rewrite filter_run_dtau, Hn; reflexivity.
Qed.

End RealLoop.

(** ** A run over the reals, pass by pass *)

Section RealRun.

(** A pass of the script's loop that starts with tau = dtau = 0: the
    interpolator returns the centre cell of the raw buffer. *)
Lemma pass_tau0 (input : list (cplx R)) (i : nat) (s : state R)
    (a0 a1 a2 a3 a4 b0 b1 b2 : cplx R) :
  tau s = 0 -> dtau s = 0 ->
  buf s = [a0; a1; a2; a3; a4] -> buf_dz s = [b0; b1; b2] ->
  (i < length (mf_samples s))%nat ->
  let y := Cplx (re a3) (im a3) in
  let mf1 := upd i y (mf_samples s) in
  let e := tanh (re (cmul (Cplx (re b1 - re y) (im b1 - im y))
                          (conj (nth (i - 1) mf1 czero)))) in
  cycle demo input i s
  = if strobe demo s
    then State (0.005 * e + 2 * sqrt 0.005 * e + 0.005 * e / 4) (0.005 * e)
           [a1; a2; a3; a4; nth i input czero] (counter s + 1 - 4) mf1
           [b1; b2; y]
           (upd i (Cplx (0.005 * e) 0) (dtau_vect s))
           (upd i (Cplx (0.005 * e + 2 * sqrt 0.005 * e + 0.005 * e / 4) 0)
              (tau_vect s))
    else State 0 0 [a1; a2; a3; a4; nth i input czero] (counter s + 1) mf1
           [b1; b2; y] (upd i c0 (dtau_vect s)) (upd i c0 (tau_vect s)).
Proof.
  intros Ht Hd Hb Hz Hi y mf1 e.
  unfold cycle, ted_output.
  rewrite Ht, Hd, Hb, Hz, !c64_R; cbn [push app].
  change (flit 0) with 0.
  rewrite interpolate_demo_0. fold y. fold mf1.
  assert (Hy : nth i mf1 czero = y) by (apply nth_upd_eq; exact Hi).
  rewrite Hy, derivative_R.
  destruct (strobe demo s).
  - unfold loop_filter, drift, strobe_branch, ted, of_real.
    cbn [fst snd fadd fmul fdiv flit ftanh Arith_R alpha beta
         samples_per_symbol demo].
    fold e.
    f_equal; try lra; f_equal; f_equal; lra.
  - unfold loop_filter, drift, of_real, c0.
    cbn [fst snd fadd fmul fdiv flit ftanh Arith_R alpha beta
         samples_per_symbol demo].
    f_equal; try lra; f_equal; f_equal; lra.
Qed.

Ltac unfold_pass :=
  cbn [re im cmul conj nth upd Nat.sub mf_samples dtau_vect tau_vect counter
       input7 c0 c1 czero fsub fmul fadd fneg flit Arith_R].

Ltac quiet_pass s :=
  rewrite (@pass_tau0 input7 _ s _ _ _ _ _ _ _ _ eq_refl eq_refl eq_refl
             eq_refl) by (cbn; lia);
  change (strobe demo s) with false; cbv iota; unfold s; unfold_pass.

Lemma step1 : cycle demo input7 1 st0 = st1.
Proof.
  rewrite (@pass_tau0 input7 _ st0 _ _ _ _ _ _ _ _ eq_refl eq_refl eq_refl
             eq_refl) by (cbn; lia).
  change (strobe demo st0) with true; cbv iota; unfold st0; unfold_pass.
  replace ((0 - 0) * 0 - (0 - 0) * - 0) with 0 by ring.
  rewrite tanh_0.
  unfold st1, c0, c1; f_equal; try lra; repeat (f_equal; try lra).
Qed.

Lemma step2 : cycle demo input7 2 st1 = st2.
Proof. quiet_pass st1; reflexivity. Qed.

Lemma step3 : cycle demo input7 3 st2 = st3.
Proof. quiet_pass st2; reflexivity. Qed.

Lemma step4 : cycle demo input7 4 st3 = st4.
Proof. quiet_pass st3; reflexivity. Qed.

Lemma step5 : cycle demo input7 5 st4 = st5.
Proof.
  rewrite (@pass_tau0 input7 _ st4 _ _ _ _ _ _ _ _ eq_refl eq_refl eq_refl
             eq_refl) by (cbn; lia).
  change (strobe demo st4) with true; cbv iota; unfold st4; unfold_pass.
  replace ((1 - 0) * 1 - (0 - 0) * - 0) with 1 by ring.
  unfold st5, tau5, dtau5, c0, c1; reflexivity.
Qed.

Lemma run_input7_5 :
  run_from demo input7 [1; 2; 3; 4; 5]%nat (init demo 7) = st5.
Proof.
  change (init demo 7) with st0.
  unfold run_from; cbn [fold_left].
  rewrite step1, step2, step3, step4, step5; reflexivity.
Qed.

Lemma run_input7_4 :
  run_from demo input7 [1; 2; 3; 4]%nat (init demo 7) = st4.
Proof.
  change (init demo 7) with st0.
  unfold run_from; cbn [fold_left].
  rewrite step1, step2, step3, step4; reflexivity.
Qed.

Lemma tanh_1_bounds : 0 < tanh 1 < 1.
Proof.
  split; [apply tanh_pos; lra | apply tanh_bounds].
Qed.

Lemma tau5_bounds : 0 < tau5 < 1.
Proof.
  unfold tau5, dtau5.
  pose proof tanh_1_bounds; pose proof sqrt_0005_bounds.
  split; nra.
Qed.

Lemma sinc_between (t : R) : 0 < t < 1 -> sinc (-1 - t) <> 0.
Proof.
  intros Ht; unfold sinc.
  destruct (Req_dec_T (-1 - t) 0) as [E|_]; [lra|].
  pose proof PI_RGT_0 as Hpi.
  assert (Hs : sin (PI * (1 + t)) < 0) by (apply sin_lt_0; nra).
  replace (PI * (-1 - t)) with (- (PI * (1 + t))) by ring.
  rewrite sin_neg.
  intros E0.
  apply Rmult_integral in E0; destruct E0 as [E0|E0]; [lra|].
  revert E0; apply Rinv_neq_0_compat; nra.
Qed.

End RealRun.

(** ** Where the code departs from the specification's wording *)

Section Departures.

(** C1, as the specification states it, fails: in pass 5 of the run on
    [input7] (a strobe, error [tanh 1], tau = dtau = 0 before) line 104 adds
    alpha * err to tau as well, so tau and dtau after the pass are not what
    "dtau += alpha*err; tau += beta*err" followed by the drift term gives. *)
Lemma C1_counterexample :
  let s4 := run_from demo input7 [1; 2; 3; 4]%nat (init demo 7) in
  let s5 := cycle demo input7 5 s4 in
  strobe demo s4 = true
  /\ ted_output demo s4 5 (mf_samples s5) (buf_dz s5) = Some (tanh 1)
  /\ (tau s5, dtau s5)
     <> drift demo (spec_strobe_update demo (tanh 1) (tau s4, dtau s4)).
Proof.
  cbv zeta; rewrite run_input7_4, step5.
  split; [reflexivity|]. split.
  - unfold ted_output; change (strobe demo st4) with true; cbv iota.
    unfold st5; cbn [mf_samples buf_dz]; rewrite derivative_R.
    unfold ted;
      cbn [re im cmul conj nth Nat.sub c0 c1 fsub fmul fneg ftanh Arith_R].
    do 2 f_equal; ring.
  - unfold drift, spec_strobe_update, st4, st5, tau5, dtau5.
    cbn [fst snd tau dtau fadd fmul fdiv flit Arith_R alpha beta
         samples_per_symbol demo].
    intros E; injection E as E _.
    pose proof tanh_1_bounds; lra.
Qed.

(** C5, as the specification states it, fails: the window of the code is the
    square root of the Hamming window.  After pass 5 of the run on [input7]
    tau lies strictly between 0 and 1, and the kernel of pass 6, the last
    pass of that run, is not the Hamming-windowed sinc at that tau. *)
Lemma C5_counterexample :
  let s5 := run_from demo input7 [1; 2; 3; 4; 5]%nat (init demo 7) in
  run demo input7 = cycle demo input7 6 s5
  /\ kernel demo (tau s5) <> spec_kernel (tau s5).
Proof.
  cbv zeta; split; [reflexivity|].
  rewrite run_input7_5; change (tau st5) with tau5.
  rewrite kernel_demo, spec_kernel_values.
  intros E; injection E as _ E _ _ _.
  pose proof (sinc_between tau5_bounds) as Hs.
  apply Rmult_eq_reg_l in E; [|exact Hs].
  exact (sqrt_054_neq E).
Qed.

End Departures.

(** ** The theorems with hypotheses, at concrete passes of the script *)

Section Instances.

(** C1 at pass 5 of the run on [input7], which is a strobe. *)
Lemma C1_strobe_update_order_at_pass5 :
  strobe demo st4 = true
  /\ let s' := cycle demo input7 5 st4 in
     exists err : R,
       ted_output demo st4 5 (mf_samples s') (buf_dz s') = Some err
       /\ let t1 := tau st4 + alpha demo * err in
          let d1 := dtau st4 + alpha demo * err in
          let t2 := t1 + beta demo * err in
          strobe_branch demo err (tau st4, dtau st4) = (t2, d1)
          /\ (tau s', dtau s') = drift demo (t2, d1).
Proof.
  split; [reflexivity|].
  exact (@C1_strobe_update_order R _ demo input7 5%nat st4 eq_refl).
Defined.

(** C2 at pass 2 of the run on [input7], which is not a strobe. *)
Lemma C2_drift_every_pass_at_pass2 :
  strobe demo st1 = false
  /\ tau (cycle demo input7 2 st1) = tau st1 + dtau st1 / 4
  /\ dtau (cycle demo input7 2 st1) = dtau st1.
Proof.
  split; [reflexivity|].
  exact (proj2 (proj2 (@C2_drift_every_pass R _ demo input7 2%nat st1))
           eq_refl).
Defined.

(** C5 at pass 5 of the run on [input7]. *)
Lemma C5_interpolator_kernel_at_pass5 :
  (5 < length (mf_samples st4))%nat
  /\ buf st4 = [c0; c1; c1; c0; c0]
  /\ kernel demo (tau st4)
     = [sinc (-2 - tau st4) * sqrt 0.08; sinc (-1 - tau st4) * sqrt 0.54;
        sinc (0 - tau st4) * sqrt 1; sinc (1 - tau st4) * sqrt 0.54;
        sinc (2 - tau st4) * sqrt 0.08]
  /\ buf (cycle demo input7 5 st4) = [c1; c1; c0; c0; nth 5 input7 czero].
Proof.
  assert (H : (5 < length (mf_samples st4))%nat) by (cbn; lia).
  split; [exact H|]. split; [reflexivity|].
  pose proof (@C5_interpolator_kernel input7 5%nat st4 c0 c1 c1 c0 c0 H
                eq_refl) as (Hk & Hb & _).
  split; [exact Hk | exact Hb].
Defined.

(** C7 at the script's configuration, on the 7 samples of [input7]. *)
Lemma C7_strobe_count_at_input7 :
  (1 <= samples_per_symbol (@demo R _))%Z
  /\ sample_delay (@demo R _) = 2%Z
  /\ (Z.abs (emitted demo input7 - 7 / 4) <= 1)%Z
  /\ emitted demo input7 = Z.min 6 ((3 + 6) / 4).
Proof.
  assert (H : (1 <= samples_per_symbol (@demo R _))%Z) by (cbn; lia).
  split; [exact H|]. split; [reflexivity|].
  exact (@C7_strobe_count R _ demo input7 H eq_refl).
Defined.

End Instances.

(** ** The run as a sequence of states *)

Section RunStates.

Context {T : Type} {A : Arith T}.
Variable p : params T.

Lemma state_after_S (input : list (cplx T)) (i : nat) :
  state_after p input (S i) = cycle p input (S i) (state_after p input i).
Proof.
  unfold state_after; rewrite seq_S, run_from_app; reflexivity.
Qed.

Lemma run_state_after (input : list (cplx T)) :
  run p input = state_after p input (length input - 1).
Proof. reflexivity. Qed.

Lemma state_after_shape (input : list (cplx T)) (i : nat) :
  let s := state_after p input i in
  length (mf_samples s) = length input
  /\ length (tau_vect s) = length input
  /\ length (dtau_vect s) = length input
  /\ length (buf s) = 5%nat
  /\ length (buf_dz s) = 3%nat.
Proof. apply reachable_shape. Qed.

Lemma counter_step (input : list (cplx T)) (i : nat) (s : state T) :
  counter (cycle p input i s)
  = (if (samples_per_symbol p <=? counter s + 1)%Z
     then counter s + 1 - samples_per_symbol p
     else counter s + 1)%Z.
Proof. reflexivity. Qed.

Lemma counter_after (input : list (cplx T)) (k : nat) :
  (0 <= sample_delay p + 1 < samples_per_symbol p)%Z ->
  counter (state_after p input k)
  = ((sample_delay p + 1 + Z.of_nat k) mod samples_per_symbol p)%Z.
Proof.
  intros Hc; set (c0 := (sample_delay p + 1)%Z) in *.
  set (R := samples_per_symbol p) in *.
  induction k as [|k IH].
  - cbn [state_after seq run_from fold_left init counter]; fold c0.
    rewrite Z.add_0_r, Z.mod_small; [reflexivity | lia].
  - rewrite state_after_S, counter_step, IH; fold R.
    set (m := (c0 + Z.of_nat k)%Z).
    replace (c0 + Z.of_nat (S k))%Z with (m + 1)%Z by (subst m; lia).
    pose proof (Z.mod_pos_bound m R ltac:(lia)) as Hb.
    pose proof (Z.div_mod m R ltac:(lia)) as Hm.
    destruct (Z.leb_spec R (m mod R + 1)) as [Hle|Hlt].
    + apply Z.mod_unique with (m / R + 1)%Z; lia.
    + apply Z.mod_unique with (m / R)%Z; lia.
Qed.

Lemma strobe_after (input : list (cplx T)) (i : nat) :
  (0 <= sample_delay p + 1 < samples_per_symbol p)%Z ->
  strobe p (state_after p input i) = true
  <-> ((sample_delay p + 1 + Z.of_nat (S i)) mod samples_per_symbol p = 0)%Z.
Proof.
  intros Hc.
  pose proof (counter_after input (S i) Hc) as HS.
  pose proof (counter_after input i Hc) as Hi.
  pose proof (Z.mod_pos_bound (sample_delay p + 1 + Z.of_nat i)
                (samples_per_symbol p) ltac:(lia)) as Hb.
  rewrite <- Hi in Hb.
  rewrite state_after_S, counter_step in HS.
  unfold strobe; rewrite <- HS.
  destruct (Z.leb_spec (samples_per_symbol p)
              (counter (state_after p input i) + 1));
    split; intros; try discriminate; try reflexivity; lia.
Qed.

(** X1: when the initial counter sample_delay + 1 is below
    samples_per_symbol, the counter after i passes is
    (sample_delay + 1 + i) mod samples_per_symbol; it stays in
    [0, samples_per_symbol), and pass i + 1 is a strobe exactly when
    (sample_delay + 1 + (i + 1)) mod samples_per_symbol = 0. *)
Theorem X1_counter_phase (input : list (cplx T)) (i : nat) :
  (0 <= sample_delay p + 1 < samples_per_symbol p)%Z ->
  let c0 := (sample_delay p + 1)%Z in
  let R := samples_per_symbol p in
  let s := state_after p input i in
  counter s = ((c0 + Z.of_nat i) mod R)%Z
  /\ (0 <= counter s < R)%Z
  /\ (strobe p s = true <-> ((c0 + Z.of_nat (S i)) mod R = 0)%Z).
Proof.
  intros Hc c0 R s; subst c0 R s.
  split; [apply counter_after; exact Hc|].
  split; [|apply strobe_after; exact Hc].
  rewrite counter_after by exact Hc.
  apply Z.mod_pos_bound; lia.
Qed.

End RunStates.

(** ** What the buffers and the output arrays hold *)

Section Contents.

Context {T : Type} {A : Arith T}.
Variable p : params T.

Lemma state_after_add (input : list (cplx T)) (i n : nat) :
  state_after p input (i + n)
  = run_from p input (seq (S i) n) (state_after p input i).
Proof.
  unfold state_after; rewrite seq_app, run_from_app; reflexivity.
Qed.

Lemma run_after (input : list (cplx T)) (i : nat) :
  (i < length input)%nat ->
  run p input
  = run_from p input (seq (S i) (length input - 1 - i))
      (state_after p input i).
Proof.
  intros Hi; rewrite run_state_after, <- state_after_add.
  f_equal; lia.
Qed.

(** Passes k, k+1, ... leave the entries below k of the arrays alone. *)
Lemma later_passes_keep (input : list (cplx T)) (n k j : nat)
    (s : state T) :
  (j < k)%nat ->
  let s' := run_from p input (seq k n) s in
  nth j (mf_samples s') czero = nth j (mf_samples s) czero
  /\ nth j (tau_vect s') czero = nth j (tau_vect s) czero
  /\ nth j (dtau_vect s') czero = nth j (dtau_vect s) czero.
Proof.
  revert k s; induction n as [|n IH]; intros k s Hj; [cbn; auto|].
  cbn [seq run_from fold_left].
  destruct (IH (S k) (cycle p input k s) ltac:(lia)) as (H1 & H2 & H3).
  unfold run_from in H1, H2, H3; cbv zeta in H1, H2, H3.
  rewrite H1, H2, H3.
  cbn [cycle mf_samples tau_vect dtau_vect].
  rewrite !nth_upd_neq by lia; auto.
Qed.

Lemma buf_content (input : list (cplx T)) (i : nat) :
  buf (state_after p input i)
  = [delayed input i 4; delayed input i 3; delayed input i 2;
     delayed input i 1; delayed input i 0].
Proof.
  induction i as [|i IH]; [reflexivity|].
  rewrite state_after_S; cbn [cycle buf]; rewrite IH.
  cbn [push app]; unfold delayed.
  cbn [Nat.ltb Nat.leb Nat.sub]; reflexivity.
Qed.

Lemma buf_dz_content (input : list (cplx T)) (i : nat) :
  let mf := mf_samples (state_after p input i) in
  buf_dz (state_after p input i)
  = [nth (i - 2) mf czero; nth (i - 1) mf czero; nth i mf czero].
Proof.
  induction i as [|i IH]; cbv zeta in *.
  - cbn [state_after seq run_from fold_left init buf_dz mf_samples repeat
         Nat.sub].
    rewrite nth_repeat; reflexivity.
  - rewrite state_after_S; cbn [cycle buf_dz mf_samples]; rewrite IH.
    cbn [push app].
    replace (S i - 2)%nat with (i - 1)%nat by lia.
    replace (S i - 1)%nat with i by lia.
    rewrite (nth_upd_neq (i:=S i) (j:=(i - 1)%nat)) by lia.
    rewrite (nth_upd_neq (i:=S i) (j:=i)) by lia.
    reflexivity.
Qed.

(** X2: the raw buffer is a delay line over the input.  After pass i it
    holds the samples i-4 .. i, as stored in its complex64 cells, in this
    order, with zero in the place of every index below 1 (sample 0 included,
    which the loop never reads). *)
Theorem X2_raw_buffer_delay_line (input : list (cplx T)) (i : nat) :
  (i < length input)%nat ->
  buf (state_after p input i)
  = [delayed input i 4; delayed input i 3; delayed input i 2;
     delayed input i 1; delayed input i 0]
  /\ (forall d : nat,
        (d < i)%nat -> delayed input i d = c64 (nth (i - d) input czero))
  /\ (forall d : nat, (i <= d)%nat -> delayed input i d = czero).
Proof.
  intros _; split; [apply buf_content|].
  split; intros d Hd; unfold delayed.
  - destruct (Nat.ltb_spec d i); [reflexivity | lia].
  - destruct (Nat.ltb_spec d i); [lia | reflexivity].
Qed.

Lemma arrays_record (input : list (cplx T)) (i : nat) :
  (1 <= i < length input)%nat ->
  let r := run p input in
  nth i (tau_vect r) czero = c64 (of_real (tau (state_after p input i)))
  /\ nth i (dtau_vect r) czero = c64 (of_real (dtau (state_after p input i)))
  /\ nth i (mf_samples r) czero
     = c64 (dot [delayed input i 4; delayed input i 3; delayed input i 2;
                 delayed input i 1; delayed input i 0]
                (rev (kernel p (tau (state_after p input (i - 1)))))).
Proof.
  intros [H1 HL] r; subst r.
  rewrite (run_after input HL).
  destruct (@later_passes_keep input (length input - 1 - i) (S i) i
              (state_after p input i) ltac:(lia)) as (K1 & K2 & K3).
  cbv zeta in K1, K2, K3; rewrite K1, K2, K3.
  destruct i as [|i]; [lia|].
  replace (S i - 1)%nat with i by lia.
  destruct (state_after_shape p input i) as (L1 & L2 & L3 & _).
  pose proof (buf_content input (S i)) as Hb.
  rewrite state_after_S in *.
  cbn [cycle tau_vect dtau_vect mf_samples tau dtau buf] in *.
  rewrite !nth_upd_eq by lia.
  rewrite Hb; repeat split; reflexivity.
Qed.

Lemma detector_window (input : list (cplx T)) (i : nat) :
  (1 <= i < length input)%nat ->
  let m j := nth j (mf_samples (run p input)) czero in
  let s := state_after p input (i - 1) in
  let s' := state_after p input i in
  buf_dz s' = [m (i - 2)%nat; m (i - 1)%nat; m i]
  /\ ted_output p s i (mf_samples s') (buf_dz s')
     = if strobe p s
       then Some (ftanh (re (cmul
                    (derivative [m (i - 2)%nat; m (i - 1)%nat; m i])
                    (conj (m (i - 1)%nat)))))
       else None.
Proof.
  intros [H1 HL] m s s'.
  assert (Hm : forall j, (j <= i)%nat ->
                 m j = nth j (mf_samples s') czero).
  { intros j Hj; subst m s'; cbv beta.
    rewrite (run_after input HL).
    destruct (@later_passes_keep input (length input - 1 - i) (S i) j
                (state_after p input i) ltac:(lia)) as (K1 & _).
    exact K1. }
  assert (Hb : buf_dz s' = [m (i - 2)%nat; m (i - 1)%nat; m i]).
  { rewrite !Hm by lia; apply buf_dz_content. }
  split; [exact Hb|].
  unfold ted_output; destruct (strobe p s); [|reflexivity].
  rewrite Hb, <- (Hm (i - 1)%nat) by lia; reflexivity.
Qed.

(** X3: each pass writes its own entry of the three arrays and no later pass
    touches it.  In the result of the run, entry i of the tau and dtau
    trajectories is the tau and dtau left by pass i (with zero imaginary
    part), and entry i of the output is that pass's interpolation, the dot
    product of the five samples i-4 .. i (zero below index 1) with the
    reversed kernel at the tau left by pass i-1; each as its complex64 cell
    keeps it. *)
Theorem X3_arrays_record_each_pass (input : list (cplx T)) (i : nat) :
  (1 <= i < length input)%nat ->
  let r := run p input in
  nth i (tau_vect r) czero = c64 (of_real (tau (state_after p input i)))
  /\ nth i (dtau_vect r) czero = c64 (of_real (dtau (state_after p input i)))
  /\ nth i (mf_samples r) czero
     = c64 (dot [delayed input i 4; delayed input i 3; delayed input i 2;
                 delayed input i 1; delayed input i 0]
                (rev (kernel p (tau (state_after p input (i - 1)))))).
Proof. apply arrays_record. Qed.

(** X4: in every pass of a run the derivative buffer holds the last three
    outputs, so the sample the detector conjugates, mf_samples[i-1], is its
    middle cell: on a strobe pass i the error is
    tanh(Re(dz * conj(m[i-1]))) with dz the derivative of
    (m[i-2], m[i-1], m[i]) and m the output array of the finished run; on
    other passes the detector does not run. *)
Theorem X4_detector_reads_last_three_outputs (input : list (cplx T))
    (i : nat) :
  (1 <= i < length input)%nat ->
  let m j := nth j (mf_samples (run p input)) czero in
  let s := state_after p input (i - 1) in
  let s' := state_after p input i in
  buf_dz s' = [m (i - 2)%nat; m (i - 1)%nat; m i]
  /\ ted_output p s i (mf_samples s') (buf_dz s')
     = if strobe p s
       then Some (ftanh (re (cmul
                    (derivative [m (i - 2)%nat; m (i - 1)%nat; m i])
                    (conj (m (i - 1)%nat)))))
       else None.
Proof. apply detector_window. Qed.

End Contents.

(** ** The samples the script plots after timing recovery *)

Section Plotted.

Lemma in_slice_indices (start step len j : nat) :
  (0 < step)%nat ->
  In j (slice_indices start step len)
  <-> (start <= j < len)%nat /\ ((j - start) mod step = 0)%nat.
Proof.
  intros Hs; unfold slice_indices; rewrite in_map_iff.
  set (n := (len - start)%nat).
  set (q := ((n + step - 1) / step)%nat).
  assert (Hq1 : (step * q <= n + step - 1)%nat)
    by (apply Nat.Div0.mul_div_le).
  assert (Hq2 : (n + step - 1 < step * S q)%nat)
    by (apply Nat.mul_succ_div_gt; lia).
  split.
  - intros (k & Hk & Hin); apply in_seq in Hin.
    assert (k * step < n)%nat by nia.
    subst j; split; [lia|].
    replace (start + k * step - start)%nat with (k * step)%nat by lia.
    apply Nat.Div0.mod_mul.
  - intros (Hj & Hm).
    apply Nat.Div0.div_exact in Hm.
    exists ((j - start) / step)%nat; split; [lia|].
    apply in_seq; split; [lia|].
    assert (step * ((j - start) / step) < n)%nat by lia.
    cbn [Nat.add]; fold q; nia.
Qed.

Context {T : Type} {A : Arith T}.

(** X5: the samples plotted as "Rx after timing recovery",
    mf_samples[second_half::samples_per_symbol], are the symbol samples of
    the loop: from second_half = 1000 on, index j is plotted exactly when
    pass j + 1 is a strobe, the pass whose detector conjugates
    mf_samples[j]. *)
Theorem X5_plotted_samples_are_strobe_samples (input : list (cplx T))
    (j : nat) :
  (second_half <= j)%nat ->
  (S j < length input)%nat ->
  In j (slice_indices second_half
          (Z.to_nat (samples_per_symbol (@demo T A))) (length input))
  <-> strobe demo (state_after demo input j) = true.
Proof.
  intros Hj HL.
  rewrite (@strobe_after T A demo input j) by (cbn; lia).
  change (Z.to_nat (samples_per_symbol (@demo T A))) with 4%nat.
  rewrite in_slice_indices by lia.
  change second_half with 1000%nat in *.
  change (sample_delay (@demo T A) + 1)%Z with 3%Z.
  change (samples_per_symbol (@demo T A)) with 4%Z.
  split.
  - intros (_ & Hm).
    apply Nat.Div0.div_exact in Hm.
    set (k := ((j - 1000) / 4)%nat) in *.
    replace (3 + Z.of_nat (S j))%Z with (4 * (Z.of_nat k + 251))%Z by lia.
    rewrite Z.mul_comm; apply Z.mod_mul; lia.
  - intros Hm; split; [lia|].
    apply Z.mod_divide in Hm; [|lia].
    destruct Hm as (z & Hz).
    replace (j - 1000)%nat with (Z.to_nat (z - 251) * 4)%nat by lia.
    apply Nat.Div0.mod_mul.
Qed.

End Plotted.

(** ** Runs over the reals: warm-up, first correction, bounds *)

Section RealRuns.

Lemma cplx_eta (z : cplx R) : Cplx (re z) (im z) = z.
Proof. destruct z; reflexivity. Qed.

Lemma ted_zero_prev (dz : cplx R) : ted dz czero = 0.
Proof.
  unfold ted, cmul, conj, czero; cbn [re im fsub fmul fneg flit ftanh Arith_R].
  replace (re dz * 0 - im dz * - 0) with 0 by ring.
  apply tanh_0.
Qed.

(** A pass that starts with tau = dtau = 0 leaves them 0 when it is not a
    strobe, and also when it is one but the previous output is zero. *)
Lemma pass_keeps_zero (p : params R) (input : list (cplx R)) (i : nat)
    (s : state R) :
  (1 <= i)%nat ->
  tau s = 0 -> dtau s = 0 ->
  (strobe p s = true -> nth (i - 1) (mf_samples s) czero = czero) ->
  tau (cycle p input i s) = 0 /\ dtau (cycle p input i s) = 0.
Proof.
  intros Hi Ht Hd Hprev.
  cbn [cycle tau dtau]; unfold loop_filter, ted_output.
  destruct (strobe p s).
  - rewrite (nth_upd_neq (i:=i) (j:=(i - 1)%nat)) by lia.
    rewrite Hprev by reflexivity.
    rewrite ted_zero_prev, Ht, Hd.
    unfold drift, strobe_branch; cbn [fst snd fadd fmul fdiv flit Arith_R].
    split; unfold Rdiv; ring.
  - rewrite Ht, Hd; unfold drift; cbn [fst snd fadd fdiv flit Arith_R].
    split; unfold Rdiv; ring.
Qed.

Lemma init_entry (p : params R) (input : list (cplx R)) (j : nat) :
  nth j (mf_samples (state_after p input 0)) czero = czero.
Proof.
  cbn [state_after seq run_from fold_left init mf_samples].
  apply nth_repeat.
Qed.

End RealRuns.

(** ** Bounds and fixed points over the reals *)

Section RealBounds.

Lemma silent_states (n i : nat) :
  let s := state_after demo (repeat (@czero R _) n) i in
  tau s = 0 /\ dtau s = 0
  /\ forall j : nat, nth j (mf_samples s) czero = czero.
Proof.
  induction i as [|i IH]; cbv zeta in *.
  - split; [reflexivity|]. split; [reflexivity|].
    intros j; apply init_entry.
  - destruct IH as (Ht & Hd & Hm).
    pose proof (buf_content demo (repeat (@czero R _) n) (S i)) as Hb.
    rewrite state_after_S in *.
    destruct (@pass_keeps_zero demo (repeat czero n) (S i) _ ltac:(lia) Ht Hd)
      as (Ht' & Hd'); [intros _; apply Hm|].
    split; [exact Ht'|]. split; [exact Hd'|].
    intros j; cbn [cycle mf_samples buf] in *.
    destruct (Nat.eq_dec (S i) j) as [<-|Hne].
    + destruct (Nat.lt_ge_cases (S i)
                  (length (mf_samples
                     (state_after demo (repeat (@czero R _) n) i))))
        as [Hlt|Hge].
      * rewrite nth_upd_eq by exact Hlt.
        rewrite Hb, Ht, interpolate_demo_0.
        unfold delayed; destruct (2 <? S i)%nat; [|reflexivity].
        rewrite nth_repeat; reflexivity.
      * rewrite nth_overflow; [reflexivity|].
        rewrite length_upd; exact Hge.
    + rewrite nth_upd_neq by exact Hne; apply Hm.
Qed.

(** X10: silence in, silence out.  On an input of n zero samples the script's
    loop never moves: tau and dtau end at 0 and every output sample is 0. *)
Theorem X10_zero_input_fixed_point (n j : nat) :
  let r := run demo (repeat (@czero R _) n) in
  tau r = 0 /\ dtau r = 0 /\ nth j (mf_samples r) czero = czero.
Proof.
  cbv zeta; rewrite run_state_after.
  destruct (silent_states n (length (repeat (@czero R _) n) - 1))
    as (Ht & Hd & Hm).
  split; [exact Ht|]. split; [exact Hd | apply Hm].
Qed.

End RealBounds.

(** ** The transmit-side offset filter (source lines 51-56) *)

Section Transmit.

Lemma sinc_even (x : R) : sinc (- x) = sinc x.
Proof.
  unfold sinc.
  destruct (Req_dec_T (- x) 0) as [E|E], (Req_dec_T x 0) as [E'|E'];
    try lra.
  replace (PI * - x) with (- (PI * x)) by ring.
  rewrite sin_neg; field.
  split; [exact E' | apply PI_neq0].
Qed.

Lemma sinc_half : sinc (1 / 2) = 2 / PI.
Proof.
  unfold sinc; destruct (Req_dec_T (1 / 2) 0); [lra|].
  replace (PI * (1 / 2)) with (PI / 2) by field.
  rewrite sin_PI2; field; apply PI_neq0.
Qed.

Lemma sinc_three_halves : sinc (3 / 2) = - 2 / (3 * PI).
Proof.
  unfold sinc; destruct (Req_dec_T (3 / 2) 0); [lra|].
  replace (PI * (3 / 2)) with (3 * (PI / 2)) by field.
  rewrite sin_3PI2; field; apply PI_neq0.
Qed.

Lemma sinc_five_halves : sinc (5 / 2) = 2 / (5 * PI).
Proof.
  unfold sinc; destruct (Req_dec_T (5 / 2) 0); [lra|].
  replace (sin (PI * (5 / 2))) with 1.
  - field; apply PI_neq0.
  - replace (PI * (5 / 2)) with (PI / 2 + 2 * PI) by field.
    rewrite sin_plus, sin_PI2, cos_PI2, cos_2PI, sin_2PI; ring.
Qed.

Lemma tx_kernel_values (t : R) :
  tx_kernel t
  = [sinc (-2 + t) * sqrt 0.08; sinc (-1 + t) * sqrt 0.54;
     sinc (0 + t) * sqrt 1; sinc (1 + t) * sqrt 0.54;
     sinc (2 + t) * sqrt 0.08].
Proof. unfold tx_kernel; rewrite hamming_5; reflexivity. Qed.

Lemma tx_kernel_sum_pos : 0 < np_sum (tx_kernel dt).
Proof.
  rewrite tx_kernel_values; unfold dt, np_sum; cbn [fold_right].
  replace (-2 + 0.5) with (- (3 / 2)) by lra.
  replace (-1 + 0.5) with (- (1 / 2)) by lra.
  replace (0 + 0.5) with (1 / 2) by lra.
  replace (1 + 0.5) with (3 / 2) by lra.
  replace (2 + 0.5) with (5 / 2) by lra.
  rewrite !sinc_even, sinc_half, sinc_three_halves, sinc_five_halves, sqrt_1.
  pose proof PI_RGT_0 as Hpi.
  assert (H8 : 0 <= sqrt 0.08 < 1).
  { split; [apply sqrt_pos|]. rewrite <- sqrt_1; apply sqrt_lt_1; lra. }
  assert (H54 : 0 <= sqrt 0.54) by apply sqrt_pos.
  replace (-2 / (3 * PI) * sqrt 0.08
           + (2 / PI * sqrt 0.54
              + (2 / PI * 1
                 + (-2 / (3 * PI) * sqrt 0.54
                    + (2 / (5 * PI) * sqrt 0.08 + 0)))))
    with ((2 / PI) * (1 + 2 / 3 * sqrt 0.54 - 2 / 15 * sqrt 0.08))
    by (field; lra).
  apply Rmult_lt_0_compat; [apply Rdiv_lt_0_compat; lra | lra].
Qed.

Lemma np_sum_scaled (l : list R) (c : R) :
  np_sum (map (fun h => h / c) l) = np_sum l / c.
Proof.
  unfold np_sum; induction l as [|a l IH]; cbn [map fold_right].
  - unfold Rdiv; ring.
  - rewrite IH; unfold Rdiv; ring.
Qed.

(** X11: the transmit-side taps are normalised to unit sum whenever the sum
    of the raw taps sinc(th + tau) * w is not zero, and there are five of
    them; at the script's offset dt = 0.5 that sum is positive, so line 56
    does not divide by zero. *)
Theorem X11_tx_taps_unit_sum (t : R) :
  np_sum (tx_kernel t) <> 0 ->
  np_sum (tx_taps t) = 1
  /\ length (tx_taps t) = 5%nat
  /\ 0 < np_sum (tx_kernel dt).
Proof.
  intros Hs; unfold tx_taps; cbv zeta.
  rewrite np_sum_scaled, length_map, tx_kernel_values.
  rewrite tx_kernel_values in Hs.
  split; [field; exact Hs|].
  split; [reflexivity | apply tx_kernel_sum_pos].
Qed.

(** X12: the receiver's kernel is the transmitter's, reversed.  For every
    tau the raw transmit taps sinc(th + tau) * w are the flip of the
    receiver's sinc(th - tau) * w, so the receiver's dot product with
    np.flip(hi) is the dot product of the raw buffer with the transmit taps
    of the same tau. *)
Theorem X12_rx_kernel_is_flipped_tx_kernel (t : R) (b : list (cplx R)) :
  tx_kernel t = rev (kernel demo t)
  /\ interpolate demo t b = dot b (tx_kernel t).
Proof.
  assert (E : tx_kernel t = rev (kernel demo t)).
  { rewrite tx_kernel_values, kernel_demo; cbn [rev app].
    replace (-2 + t) with (- (2 - t)) by ring.
    replace (-1 + t) with (- (1 - t)) by ring.
    replace (0 + t) with (- (0 - t)) by ring.
    replace (1 + t) with (- (-1 - t)) by ring.
    replace (2 + t) with (- (-2 - t)) by ring.
    rewrite !sinc_even; reflexivity. }
  split; [exact E|].
  unfold interpolate; rewrite E; reflexivity.
Qed.

End Transmit.

(** ** The further theorems with hypotheses, at concrete runs *)

Section MoreInstances.

(** X1 for the script's configuration, after 4 passes on [input7]. *)
Lemma X1_counter_phase_at_pass4 :
  (0 <= sample_delay (@demo R _) + 1 < samples_per_symbol (@demo R _))%Z
  /\ counter (state_after demo input7 4) = ((3 + 4) mod 4)%Z
  /\ (0 <= counter (state_after demo input7 4) < 4)%Z
  /\ (strobe demo (state_after demo input7 4) = true
      <-> ((3 + 5) mod 4 = 0)%Z).
Proof.
  assert (H : (0 <= sample_delay (@demo R _) + 1
               < samples_per_symbol (@demo R _))%Z) by (cbn; lia).
  split; [exact H|].
  exact (@X1_counter_phase R _ demo input7 4%nat H).
Defined.

(** X2 after pass 5 on [input7]. *)
Lemma X2_raw_buffer_delay_line_at_pass5 :
  (5 < length input7)%nat
  /\ buf (state_after demo input7 5)
     = [delayed input7 5 4; delayed input7 5 3; delayed input7 5 2;
        delayed input7 5 1; delayed input7 5 0].
Proof.
  assert (H : (5 < length input7)%nat) by (cbn; lia).
  split; [exact H|].
  exact (proj1 (@X2_raw_buffer_delay_line R _ demo input7 5%nat H)).
Defined.

(** X3 at entry 5 of the run on [input7]. *)
Lemma X3_arrays_record_each_pass_at_pass5 :
  (1 <= 5 < length input7)%nat
  /\ nth 5 (tau_vect (run demo input7)) czero
     = c64 (of_real (tau (state_after demo input7 5)))
  /\ nth 5 (dtau_vect (run demo input7)) czero
     = c64 (of_real (dtau (state_after demo input7 5))).
Proof.
  assert (H : (1 <= 5 < length input7)%nat) by (cbn; lia).
  split; [exact H|].
  pose proof (@X3_arrays_record_each_pass R _ demo input7 5%nat H)
    as (H1 & H2 & _).
  split; [exact H1 | exact H2].
Defined.

(** X4 at pass 5 of the run on [input7]. *)
Lemma X4_detector_reads_last_three_outputs_at_pass5 :
  (1 <= 5 < length input7)%nat
  /\ buf_dz (state_after demo input7 5)
     = [nth 3 (mf_samples (run demo input7)) czero;
        nth 4 (mf_samples (run demo input7)) czero;
        nth 5 (mf_samples (run demo input7)) czero].
Proof.
  assert (H : (1 <= 5 < length input7)%nat) by (cbn; lia).
  split; [exact H|].
  exact (proj1 (@X4_detector_reads_last_three_outputs R _ demo input7 5%nat
                  H)).
Defined.

(** X5 at index 1000 of an input of 1002 samples. *)
Lemma X5_plotted_samples_are_strobe_samples_at_1000 :
  (second_half <= 1000)%nat
  /\ (1001 < length (repeat c0 1002))%nat
  /\ (In 1000%nat (slice_indices second_half 4 (length (repeat c0 1002)))
      <-> strobe demo (state_after demo (repeat c0 1002) 1000) = true).
Proof.
  assert (H1 : (second_half <= 1000)%nat) by (apply Nat.le_refl).
  assert (H2 : (1001 < length (repeat c0 1002))%nat)
    by (rewrite repeat_length; apply Nat.lt_succ_diag_r).
  split; [exact H1|]. split; [exact H2|].
  exact (@X5_plotted_samples_are_strobe_samples R _ (repeat c0 1002)
           1000%nat H1 H2).
Defined.

(** X11 at the script's offset dt = 0.5. *)
Lemma X11_tx_taps_unit_sum_at_dt :
  np_sum (tx_kernel dt) <> 0
  /\ np_sum (tx_taps dt) = 1
  /\ length (tx_taps dt) = 5%nat.
Proof.
  assert (H : np_sum (tx_kernel dt) <> 0)
    by (apply Rgt_not_eq, tx_kernel_sum_pos).
  split; [exact H|].
  pose proof (@X11_tx_taps_unit_sum dt H) as (H1 & H2 & _).
  split; [exact H1 | exact H2].
Defined.

End MoreInstances.

(** ** The loop is causal *)

Section Causal.

Context {T : Type} {A : Arith T}.
Variable p : params T.

Lemma causal_states (input input' : list (cplx T)) (i : nat) :
  (i < length input)%nat ->
  (i < length input')%nat ->
  (forall j : nat,
     (1 <= j <= i)%nat -> nth j input czero = nth j input' czero) ->
  let s := state_after p input i in
  let s' := state_after p input' i in
  tau s = tau s' /\ dtau s = dtau s' /\ buf s = buf s'
  /\ counter s = counter s' /\ buf_dz s = buf_dz s'
  /\ nth i (mf_samples s) czero = nth i (mf_samples s') czero.
Proof.
  cbv zeta; induction i as [|i IH]; intros HL HL' Hin.
  - cbn [state_after seq run_from fold_left init tau dtau buf counter buf_dz
         mf_samples].
    rewrite !nth_repeat; repeat split; reflexivity.
  - destruct IH as (Ht & Hd & Hb & Hc & Hz & Hm);
      [lia | lia | intros j Hj; apply Hin; lia |].
    destruct (state_after_shape p input i) as (L1 & _).
    destruct (state_after_shape p input' i) as (L1' & _).
    rewrite !state_after_S.
    set (s := state_after p input i) in *.
    set (s' := state_after p input' i) in *.
    assert (Hy : interpolate p (tau s)
                   (push (buf s) (c64 (nth (S i) input czero)))
                 = interpolate p (tau s')
                     (push (buf s') (c64 (nth (S i) input' czero)))).
    { rewrite Ht, Hb, (Hin (S i)) by lia; reflexivity. }
    assert (Hs : strobe p s = strobe p s') by (unfold strobe; rewrite Hc; auto).
    cbn [cycle tau dtau buf counter buf_dz mf_samples].
    unfold ted_output.
    rewrite !nth_upd_eq by lia.
    replace (S i - 1)%nat with i by lia.
    rewrite !(nth_upd_neq (i:=S i) (j:=i)) by lia.
    rewrite <- Hs, <- Hy, <- Ht, <- Hd, <- Hb, <- Hc, <- Hz, <- Hm.
    rewrite <- (Hin (S i)) by lia.
    repeat split; reflexivity.
Qed.

(** X14: the loop is causal and does not depend on the length of the input.
    Two inputs that agree on the samples 1 .. i leave, after pass i, the same
    tau, dtau, counter and buffers, and the same entry i in the output and in
    the tau and dtau trajectories of the finished runs, whatever their later
    samples, their sample 0 and their lengths. *)
Theorem X14_causal (input input' : list (cplx T)) (i : nat) :
  (1 <= i < length input)%nat ->
  (i < length input')%nat ->
  (forall j : nat,
     (1 <= j <= i)%nat -> nth j input czero = nth j input' czero) ->
  let s := state_after p input i in
  let s' := state_after p input' i in
  tau s = tau s' /\ dtau s = dtau s' /\ buf s = buf s'
  /\ counter s = counter s' /\ buf_dz s = buf_dz s'
  /\ nth i (mf_samples (run p input)) czero
     = nth i (mf_samples (run p input')) czero
  /\ nth i (tau_vect (run p input)) czero
     = nth i (tau_vect (run p input')) czero
  /\ nth i (dtau_vect (run p input)) czero
     = nth i (dtau_vect (run p input')) czero.
Proof.
  intros [H1 HL] HL' Hin s s'.
  destruct (causal_states input input' HL HL' Hin)
    as (Ht & Hd & Hb & Hc & Hz & Hm).
  fold s s' in Ht, Hd, Hb, Hc, Hz, Hm.
  repeat (split; [assumption|]).
  destruct (arrays_record p input (Logic.conj H1 HL)) as (E1 & E2 & _).
  destruct (arrays_record p input' (Logic.conj H1 HL')) as (E1' & E2' & _).
  cbv zeta in E1, E2, E1', E2'; rewrite E1, E2, E1', E2'.
  fold s s'; rewrite Ht, Hd.
  split; [|split; reflexivity].
  rewrite (run_after p input HL), (run_after p input' HL').
  destruct (@later_passes_keep T A p input (length input - 1 - i) (S i) i
              (state_after p input i) ltac:(lia)) as (K & _).
  destruct (@later_passes_keep T A p input' (length input' - 1 - i) (S i) i
              (state_after p input' i) ltac:(lia)) as (K' & _).
  cbv zeta in K, K'; rewrite K, K'; exact Hm.
Qed.

End Causal.

(** X14 at pass 3, for [input7] and a shorter input with another sample 0 and
    another sample 4. *)
Lemma X14_causal_at_pass3 :
  (1 <= 3 < length input7)%nat
  /\ (3 < length [c1; c1; c1; c0; c1])%nat
  /\ (forall j : nat,
        (1 <= j <= 3)%nat ->
        nth j input7 czero = nth j [c1; c1; c1; c0; c1] czero)
  /\ tau (state_after demo input7 3)
     = tau (state_after demo [c1; c1; c1; c0; c1] 3)
  /\ dtau (state_after demo input7 3)
     = dtau (state_after demo [c1; c1; c1; c0; c1] 3).
Proof.
  assert (H : (1 <= 3 < length input7)%nat) by (cbn; lia).
  assert (H' : (3 < length [c1; c1; c1; c0; c1])%nat) by (cbn; lia).
  assert (Hin : forall j : nat,
             (1 <= j <= 3)%nat ->
             nth j input7 czero = nth j [c1; c1; c1; c0; c1] czero).
  { intros j Hj; destruct j as [|[|[|[|j]]]]; try lia; reflexivity. }
  split; [exact H|]. split; [exact H'|]. split; [exact Hin|].
  pose proof (@X14_causal R _ demo input7 [c1; c1; c1; c0; c1] 3%nat H H'
                Hin) as (Ht & Hd & _).
  split; [exact Ht | exact Hd].
Defined.

(** ** The loop starts at index 1; the detector's previous sample *)

Section FirstPass.

Context {T : Type} {A : Arith T}.
Variable p : params T.

(** C10: the loop starts at index 1.  The run on a non-empty input is the
    passes 1 .. len - 1 applied in this order to the initial state, one
    sample each; the first sample has no influence on it and never enters
    the raw buffer, which ends with the samples len-5 .. len-1 and zero in
    the place of every index below 1; entry 0 of the interpolated output and
    of the tau and dtau trajectories keeps its initial zero, and entry i >= 1
    is what pass i wrote. *)
Theorem C10_first_sample_skipped (x0 y0 : cplx T) (rest : list (cplx T)) :
  let input := x0 :: rest in
  let L := length input in
  run p input = run p (y0 :: rest)
  /\ passes input = seq 1 (L - 1)
  /\ state_after p input 0 = init p L
  /\ (forall i : nat,
        state_after p input (S i)
        = cycle p input (S i) (state_after p input i))
  /\ run p input = state_after p input (L - 1)
  /\ buf (run p input)
     = [delayed input (L - 1) 4; delayed input (L - 1) 3;
        delayed input (L - 1) 2; delayed input (L - 1) 1;
        delayed input (L - 1) 0]
  /\ nth_error (mf_samples (run p input)) 0 = Some czero
  /\ nth_error (tau_vect (run p input)) 0 = Some czero
  /\ nth_error (dtau_vect (run p input)) 0 = Some czero
  /\ (forall i : nat,
        (1 <= i < L)%nat ->
        nth i (mf_samples (run p input)) czero
        = c64 (interpolate p (tau (state_after p input (i - 1)))
                 (buf (state_after p input i)))
        /\ nth i (tau_vect (run p input)) czero
           = c64 (of_real (tau (state_after p input i)))
        /\ nth i (dtau_vect (run p input)) czero
           = c64 (of_real (dtau (state_after p input i)))).
Proof.
  intros input L.
  split.
  { unfold run, passes; subst input; cbn [length].
    rewrite Nat.sub_succ, Nat.sub_0_r.
    apply run_from_skip_head. }
  split; [reflexivity|].
  split; [reflexivity|].
  split; [intros i; apply state_after_S|].
  split; [apply run_state_after|].
  split; [rewrite run_state_after; apply buf_content|].
  destruct (run_from_index0 p input (L - 1) 0 (init p L)) as (H1 & H2 & H3).
  change (run_from p input (seq 1 (L - 1)) (init p L)) with (run p input)
    in H1, H2, H3.
  cbn [init mf_samples tau_vect dtau_vect] in H1, H2, H3.
  subst L input; cbn [length repeat nth_error] in H1, H2, H3.
  split; [exact H1|]. split; [exact H2|]. split; [exact H3|].
  intros i Hi.
  destruct (arrays_record p (x0 :: rest) Hi) as (E1 & E2 & E3).
  cbv zeta in E1, E2, E3.
  split; [|split; assumption].
  rewrite E3, buf_content; reflexivity.
Qed.

End FirstPass.

Section Detector.

Context {T : Type} {A : Arith T}.
Variable p : params T.


End Detector.

(** ** Infinities and NaN *)

Section Special.

Lemma xadd_nan_r (a : xreal) : xadd a NaN = NaN.
Proof. destruct a; reflexivity. Qed.

Lemma xmul_nan_r (a : xreal) : xmul a NaN = NaN.
Proof. destruct a; reflexivity. Qed.

Lemma xsub_nan_r (a : xreal) : xsub a NaN = NaN.
Proof. unfold xsub; apply xadd_nan_r. Qed.

Lemma xinf_sign_0 : xinf_sign 0 = NaN.
Proof.
  unfold xinf_sign; destruct (Req_dec_T 0 0); [reflexivity | lra].
Qed.

Lemma flt_max_bounds : 0 < flt_max < big.
Proof.
  unfold flt_max, big.
  rewrite !pow_IZR.
  change (2 ^ Z.of_nat 23)%Z with 8388608%Z.
  change (2 ^ Z.of_nat 127)%Z
    with 170141183460469231731687303715884105728%Z.
  change (10 ^ Z.of_nat 39)%Z
    with 1000000000000000000000000000000000000000%Z.
  split; lra.
Qed.

Lemma xf32_0 : xf32 (Fin 0) = Fin 0.
Proof.
  pose proof flt_max_bounds as Hb; unfold xf32.
  destruct (Rlt_dec flt_max 0); [lra|].
  destruct (Rlt_dec 0 (- flt_max)); [lra | reflexivity].
Qed.

Lemma xf32_big : xf32 (Fin big) = PInf.
Proof.
  pose proof flt_max_bounds as Hb; unfold xf32.
  destruct (Rlt_dec flt_max big); [reflexivity | lra].
Qed.

Lemma xf32_nan (a : xreal) : a = NaN -> xf32 a = NaN.
Proof. intros ->; reflexivity. Qed.

Lemma xtanh_range (a : xreal) :
  (xtanh a = NaN /\ a = NaN)
  \/ (exists r : R, xtanh a = Fin r /\ -1 <= r <= 1 /\ a <> NaN).
Proof.
  destruct a as [x| | |].
  - right; exists (tanh x); pose proof (tanh_bounds x).
    repeat split; try lra; discriminate.
  - right; exists 1; repeat split; try lra; discriminate.
  - right; exists (-1); repeat split; try lra; discriminate.
  - left; split; reflexivity.
Qed.

Lemma c64_has_nan (z : cplx xreal) : has_nan z -> has_nan (c64 z).
Proof.
  intros [H|H]; [left | right]; cbn [c64 re im f32 Arith_xreal];
    rewrite H; reflexivity.
Qed.

Lemma cmul_nan_l (a b : cplx xreal) :
  has_nan a -> cmul a b = Cplx NaN NaN.
Proof.
  intros [H|H]; unfold cmul; cbn [fsub fadd fmul Arith_xreal]; rewrite H;
    cbn [xmul xadd xsub];
    rewrite ?xsub_nan_r, ?xadd_nan_r; reflexivity.
Qed.

Lemma cadd_nan_l (a b : cplx xreal) : has_nan a -> has_nan (cadd a b).
Proof.
  intros [H|H]; [left | right]; cbn [cadd re im fadd Arith_xreal];
    rewrite H; reflexivity.
Qed.

Lemma cadd_nan_r (a b : cplx xreal) : has_nan b -> has_nan (cadd a b).
Proof.
  intros [H|H]; [left | right]; cbn [cadd re im fadd Arith_xreal];
    rewrite H; apply xadd_nan_r.
Qed.

Lemma cneg_has_nan (z : cplx xreal) : has_nan z -> has_nan (cneg z).
Proof.
  intros [H|H]; [left | right]; cbn [cneg re im fneg Arith_xreal];
    rewrite H; reflexivity.
Qed.

(** A dot product with a NaN term is NaN. *)
Lemma dot_term_nan (u : list (cplx xreal)) (v : list xreal) (k : nat) :
  (k < length u)%nat -> (k < length v)%nat ->
  has_nan (cmul (nth k u czero) (of_real (nth k v (flit 0)))) ->
  has_nan (dot u v).
Proof.
  revert v k; induction u as [|a u IH]; intros [|h v] [|k] Hu Hv Hn;
    cbn [length] in Hu, Hv; try lia; cbn [dot nth] in *.
  - apply cadd_nan_l; exact Hn.
  - apply cadd_nan_r, (IH v k); try lia; exact Hn.
Qed.

Lemma dot_cell_nan (u : list (cplx xreal)) (v : list xreal) (k : nat) :
  (k < length u)%nat -> (k < length v)%nat ->
  has_nan (nth k u czero) -> has_nan (dot u v).
Proof.
  intros Hu Hv Hn; apply (dot_term_nan u v Hu Hv).
  rewrite (cmul_nan_l _ Hn); left; reflexivity.
Qed.

Lemma ted_nan (dz prev : cplx xreal) : has_nan dz -> ted dz prev = NaN.
Proof.
  intros H; unfold ted; rewrite (cmul_nan_l _ H); reflexivity.
Qed.

Lemma derivative_nan (b0 b1 y : cplx xreal) :
  has_nan y -> has_nan (derivative [b0; b1; y]).
Proof.
  intros H; unfold derivative; apply cneg_has_nan.
  apply (@dot_cell_nan [b0; b1; y] _ 2); cbn; try lia; exact H.
Qed.

Lemma loop_filter_nan (p : params xreal) (t d : xreal) :
  loop_filter p (Some NaN) (t, d) = (NaN, NaN).
Proof.
  unfold loop_filter, drift, strobe_branch;
    cbn [fst snd fadd fmul fdiv Arith_xreal].
  rewrite !xmul_nan_r, !xadd_nan_r; reflexivity.
Qed.

(** A strobe pass whose interpolation has a NaN part leaves tau and dtau
    NaN. *)
Lemma nan_output_poisons (p : params xreal) (input : list (cplx xreal))
    (i : nat) (s : state xreal) :
  (i < length (mf_samples s))%nat ->
  length (buf_dz s) = 3%nat ->
  has_nan (interpolate p (tau s) (buf (cycle p input i s))) ->
  strobe p s = true ->
  let s' := cycle p input i s in
  ted_output p s i (mf_samples s') (buf_dz s') = Some NaN
  /\ tau s' = NaN /\ dtau s' = NaN.
Proof.
  intros Hi Hz Hn Hs s'.
  assert (Ht : ted_output p s i (mf_samples s') (buf_dz s') = Some NaN).
  { subst s'; unfold ted_output; rewrite Hs.
    cbn [cycle mf_samples buf_dz buf] in *.
    rewrite nth_upd_eq by exact Hi.
    destruct (buf_dz s) as [|b0 [|b1 [|b2 [|b3 l]]]]; try discriminate Hz.
    cbn [push app]; f_equal.
    apply ted_nan, derivative_nan, c64_has_nan, Hn. }
  split; [exact Ht|].
  subst s'; cbn [cycle tau dtau mf_samples buf_dz] in *.
  rewrite Ht, loop_filter_nan; split; reflexivity.
Qed.

Lemma cycle_nan_persists (p : params xreal) (input : list (cplx xreal))
    (i : nat) (s : state xreal) :
  tau s = NaN -> dtau s = NaN ->
  tau (cycle p input i s) = NaN /\ dtau (cycle p input i s) = NaN.
Proof.
  intros Ht Hd; cbn [cycle tau dtau].
  unfold loop_filter, drift, strobe_branch; rewrite Ht, Hd.
  destruct (ted_output p s i _ _); split; reflexivity.
Qed.

Lemma run_nan_persists (p : params xreal) (input : list (cplx xreal))
    (idx : list nat) (s : state xreal) :
  tau s = NaN -> dtau s = NaN ->
  tau (run_from p input idx s) = NaN /\ dtau (run_from p input idx s) = NaN.
Proof.
  revert s; induction idx as [|i idx IH]; intros s Ht Hd; [split; assumption|].
  cbn [run_from fold_left].
  destruct (cycle_nan_persists p input i s Ht Hd) as (Ht' & Hd').
  apply IH; assumption.
Qed.

End Special.

(** ** The detector and the loop on non-finite values *)

Section Poison.

Lemma kernel_demo_length (t : xreal) : length (rev (kernel demo t)) = 5%nat.
Proof. reflexivity. Qed.

Lemma demo_counter_range :
  (0 <= sample_delay (@demo xreal _) + 1
   < samples_per_symbol (@demo xreal _))%Z.
Proof. cbn; lia. Qed.

(** A NaN sample still in the raw buffer makes the interpolation NaN,
    whatever tau is. *)
Lemma nan_in_window (input : list (cplx xreal)) (j i : nat) (t : xreal) :
  (1 <= j <= i)%nat -> (i <= j + 4)%nat ->
  has_nan (nth j input czero) ->
  has_nan (interpolate demo t (buf (state_after demo input i))).
Proof.
  intros Hj Hi Hn; rewrite buf_content; unfold interpolate.
  assert (Hd : forall d : nat,
             (i = j + d)%nat -> has_nan (delayed input i d)).
  { intros d ->; unfold delayed.
    destruct (Nat.ltb_spec d (j + d)); [|lia].
    replace (j + d - d)%nat with j by lia.
    apply c64_has_nan, Hn. }
  assert (Hc : (i = j + 0 \/ i = j + 1 \/ i = j + 2 \/ i = j + 3
                \/ i = j + 4)%nat) by lia.
  destruct Hc as [E|[E|[E|[E|E]]]].
  - apply (@dot_cell_nan _ _ 4); [cbn; lia | cbn; lia | exact (Hd _ E)].
  - apply (@dot_cell_nan _ _ 3); [cbn; lia | cbn; lia | exact (Hd _ E)].
  - apply (@dot_cell_nan _ _ 2); [cbn; lia | cbn; lia | exact (Hd _ E)].
  - apply (@dot_cell_nan _ _ 1); [cbn; lia | cbn; lia | exact (Hd _ E)].
  - apply (@dot_cell_nan _ _ 0); [cbn; lia | cbn; lia | exact (Hd _ E)].
Qed.

(** A strobe pass with a NaN sample in its window leaves tau and dtau NaN. *)
Lemma poisoned_at (input : list (cplx xreal)) (j i : nat) :
  (1 <= j <= i)%nat -> (i <= j + 4)%nat -> (i < length input)%nat ->
  has_nan (nth j input czero) ->
  strobe demo (state_after demo input (i - 1)) = true ->
  let s := state_after demo input (i - 1) in
  let s' := state_after demo input i in
  ted_output demo s i (mf_samples s') (buf_dz s') = Some NaN
  /\ tau s' = NaN /\ dtau s' = NaN.
Proof.
  intros Hj Hi HL Hn Hs s s'; subst s s'.
  destruct i as [|i]; [lia|].
  replace (S i - 1)%nat with i in * by lia.
  destruct (state_after_shape demo input i) as (L1 & _ & _ & _ & L5).
  pose proof (@nan_in_window input j (S i) (tau (state_after demo input i))
                Hj Hi Hn) as Hw.
  rewrite state_after_S in *.
  apply nan_output_poisons; try assumption; lia.
Qed.

(** Within four passes there is a strobe. *)
Lemma strobe_within (input : list (cplx xreal)) (j : nat) :
  (1 <= j)%nat ->
  exists i : nat,
    (j <= i <= j + 3)%nat
    /\ strobe demo (state_after demo input (i - 1)) = true.
Proof.
  intros Hj.
  assert (Hs : forall (i : nat) (q : Z),
             (1 <= i)%nat -> (3 + Z.of_nat i = 4 * q)%Z ->
             strobe demo (state_after demo input (i - 1)) = true).
  { intros i q Hi Hm.
    apply (proj2 (strobe_after demo input (i - 1) demo_counter_range)).
    replace (S (i - 1)) with i by lia.
    change (sample_delay demo + 1)%Z with 3%Z.
    change (samples_per_symbol demo) with 4%Z.
    symmetry; apply Z.mod_unique with q; lia. }
  pose proof (Z.mod_pos_bound (Z.of_nat j) 4 ltac:(lia)) as Hb.
  pose proof (Z.div_mod (Z.of_nat j) 4 ltac:(lia)) as Hm.
  set (q := (Z.of_nat j / 4)%Z) in *.
  assert (Hc : (Z.of_nat j mod 4 = 0 \/ Z.of_nat j mod 4 = 1
                \/ Z.of_nat j mod 4 = 2 \/ Z.of_nat j mod 4 = 3)%Z) by lia.
  destruct Hc as [E|[E|[E|E]]].
  - exists (j + 1)%nat; split; [lia | apply (Hs _ (q + 1)%Z); lia].
  - exists j; split; [lia | apply (Hs _ (q + 1)%Z); lia].
  - exists (j + 3)%nat; split; [lia | apply (Hs _ (q + 2)%Z); lia].
  - exists (j + 2)%nat; split; [lia | apply (Hs _ (q + 2)%Z); lia].
Qed.

Lemma poisoned_from (input : list (cplx xreal)) (i k : nat) :
  (i <= k)%nat ->
  tau (state_after demo input i) = NaN ->
  dtau (state_after demo input i) = NaN ->
  tau (state_after demo input k) = NaN
  /\ dtau (state_after demo input k) = NaN.
Proof.
  intros Hk Ht Hd.
  replace k with (i + (k - i))%nat by lia.
  rewrite state_after_add; apply run_nan_persists; assumption.
Qed.

Lemma poisoned_record (input : list (cplx xreal)) (k : nat) :
  (1 <= k < length input)%nat ->
  tau (state_after demo input k) = NaN ->
  dtau (state_after demo input k) = NaN ->
  nth k (tau_vect (run demo input)) czero = Cplx NaN (Fin 0)
  /\ nth k (dtau_vect (run demo input)) czero = Cplx NaN (Fin 0).
Proof.
  intros Hk Ht Hd.
  destruct (arrays_record demo input Hk) as (E1 & E2 & _).
  cbv zeta in E1, E2; rewrite E1, E2, Ht, Hd.
  unfold c64, of_real; cbn [re im f32 flit Arith_xreal].
  rewrite xf32_0; split; reflexivity.
Qed.






End Poison.

(** ** The amended claims at concrete passes *)

Section LastInstances.


(** C10 at [input7] and the same samples after another sample 0. *)
Lemma C10_first_sample_skipped_at_input7 :
  run demo input7 = run demo (c1 :: tl input7)
  /\ passes input7 = seq 1 6
  /\ nth_error (mf_samples (run demo input7)) 0 = Some czero.
Proof.
  pose proof (@C10_first_sample_skipped R _ demo c0 c1 (tl input7))
    as (H1 & H2 & _ & _ & _ & _ & H3 & _).
  split; [exact H1|]. split; [exact H2 | exact H3].
Defined.


End LastInstances.
